(** * TheiaProk-amr-visualizer: the TB resistance bubble-map pipeline

    A shallow embedding of [TheiaProk-amr-visualizer.py]: load, group,
    join, ISO filter, geocode, jitter, select, render.

    Conventions of the embedding.
    - A pandas DataFrame is a list of rows, in row order.
    - A missing cell (NaN / None) is [None]; a present cell is [Some].
    - In the pipeline a Python [float] is the exact rational ([Q]) that the
      expression denotes; the program holds its binary64 rounding.  Where
      a property depends on the rounding itself, the code is embedded a
      second time on binary64 numbers (module [Binary64]).
    - The two key columns are columns of strings.  (A column made of
      numerals only is read as integers by line 16 and its groups are
      ordered as numbers; such tables are outside the embedding.)
    - The two external services (the pycountry database and the Nominatim
      geocoder) are variables of the development; the geocoder may answer
      differently depending on everything that happened before the call.
    - [sleep] and the geocoder calls are recorded in an event trace.
    - [plot_points], [displayed] and [figure] give the pandas operations
      their row-wise meaning; line 71 raises on a table without rows, which
      is the [None] of [run_plot_points] and [run_figure]. *)

From Stdlib Require Import QArith Qminmax OrderedTypeEx Lqa PrimFloat.
From stdpp Require Import gmap strings list fin_maps sorting.

Local Open Scope string_scope.
Local Open Scope nat_scope.
Local Open Scope list_scope.

(** ** Data model *)

(** One record of the input table; only the two columns that the script
    reads are kept. *)
Record sample := Sample {
  Country_of_sample_collection : option string;
  tbprofiler_dr_type : option string
}.

(** A row of the cleaned table: both cells are present. *)
Definition clean_row : Type := string * string.

(** A row of [counts] after line 23: the group key and its size. *)
Record count_row := CountRow {
  cr_country : string;
  cr_dr_type : string;
  cr_count : nat
}.

(** A row of [counts] after lines 24-25. *)
Record agg_row := AggRow {
  ar_country : string;
  ar_dr_type : string;
  ar_count : nat;
  ar_total_samples : nat;
  ar_percent : Q
}.

(** A row of [counts] after lines 34-35 and after line 71. *)
Record iso_row := IsoRow {
  ir_agg : agg_row;
  ir_iso_alpha : string
}.

Record plot_point := PlotPoint {
  pp_row : iso_row;
  pp_lat : Q;
  pp_lon : Q
}.

Definition pp_country (p : plot_point) : string := ar_country (ir_agg (pp_row p)).
Definition pp_dr_type (p : plot_point) : string := ar_dr_type (ir_agg (pp_row p)).
Definition pp_percent (p : plot_point) : Q := ar_percent (ir_agg (pp_row p)).

(** ** Loader (lines 16-17) *)

(** [df.dropna(subset=[dr_type, country])]: a row survives when both cells
    are present. *)
Definition dropna (df : list sample) : list clean_row :=
  omap (λ r, match Country_of_sample_collection r, tbprofiler_dr_type r with
             | Some c, Some t => Some (c, t)
             | _, _ => None
             end) df.

(** ** Aggregator (lines 20-25) *)

(** Order of the group keys: pandas sorts them, Python compares [str] by
    code point, which on UTF-8 bytes is [String.compare].  This is the
    order of a column of strings; a column that line 16 reads as integers
    is ordered as numbers and is not covered. *)
Definition str_le (a b : string) : Prop := String.leb a b = true.

Definition pair_leb (a b : string * string) : bool :=
  match String.compare a.1 b.1 with
  | Lt => true
  | Eq => String.leb a.2 b.2
  | Gt => false
  end.
Definition pair_le (a b : string * string) : Prop := pair_leb a b = true.

Global Instance str_le_dec a b : Decision (str_le a b).
Proof. unfold str_le. apply _. Defined.
Global Instance pair_le_dec a b : Decision (pair_le a b).
Proof. unfold pair_le. apply _. Defined.

Section groupby.
Context {K : Type} `{EqDecision K}.
Variable le : relation K.
Context `{∀ a b, Decision (le a b)}.

(** Number of rows whose key is [k]. *)
Definition group_size (k : K) (keys : list K) : nat :=
  length (filter (λ x, x = k) keys).

(** [groupby(keys).size()]: one row per distinct key, keys sorted, each
    with the number of rows of its group. *)
Definition groupby_size (keys : list K) : list (K * nat) :=
  (λ k, (k, group_size k keys)) <$> merge_sort le (remove_dups keys).
End groupby.

(** Line 20. *)
Definition total_per_country (df : list clean_row) : list (string * nat) :=
  groupby_size str_le (fst <$> df).

(** Line 23. *)
Definition counts_grouped (df : list clean_row) : list count_row :=
  (λ g, CountRow g.1.1 g.1.2 g.2) <$> groupby_size pair_le df.

(** Line 25: [(count / total_samples) * 100], as the exact value of the
    expression; the program holds its binary64 rounding. *)
Definition percent_of (count total : nat) : Q :=
  ((inject_Z (Z.of_nat count) / inject_Z (Z.of_nat total)) * 100)%Q.

(** Lines 24-25: inner join on the country column, in the order of the left
    table, then the percent column. *)
Definition merge_totals (counts : list count_row)
    (totals : list (string * nat)) : list agg_row :=
  r ← counts;
  tot ← filter (λ tot, tot.1 = cr_country r) totals;
  [AggRow (cr_country r) (cr_dr_type r) (cr_count r) tot.2
          (percent_of (cr_count r) tot.2)].

Definition aggregate (df : list clean_row) : list agg_row :=
  merge_totals (counts_grouped df) (total_per_country df).

(** What the join produces for one group row, given that its country has
    exactly one total (see [aggregate_rows]). *)
Definition agg_of (df : list clean_row) (r : count_row) : agg_row :=
  let total := group_size (cr_country r) df.*1 in
  AggRow (cr_country r) (cr_dr_type r) (cr_count r) total
         (percent_of (cr_count r) total).

(** [Series.sum()] of a float column. *)
Definition series_sum (l : list Q) : Q := foldr Qplus 0%Q l.

(** The rows of a table that belong to one country. *)
Definition rows_of_country (C : string) (counts : list agg_row) : list agg_row :=
  filter (λ r, ar_country r = C) counts.

(** ** Country-code resolver (lines 28-35) *)

(** Outcome of [pycountry.countries.lookup(name)]: it raises, or it returns
    a country record, of which only [alpha_3] is read. *)
Inductive lookup_result :=
  | LookupRaises
  | LookupFound (alpha_3 : string).

(** ** Geocoder (lines 49-64) *)

Record coords := Coords { lat : Q; lon : Q }.

(** Outcome of [geolocator.geocode(country)]: it raises, it returns [None],
    or it returns a location. *)
Inductive geocode_result :=
  | GeocodeRaises
  | GeocodeNone
  | GeocodeLocation (latitude longitude : Q).

(** What the run does to the outside world, oldest event first. *)
Inductive event :=
  | EvGeocode (query : string) (answer : geocode_result)
  | EvSleep (seconds : nat).

(** The event is a geocoder call for [c]. *)
Definition is_geocode_of (c : string) (ev : event) : bool :=
  match ev with
  | EvGeocode q _ => bool_decide (q = c)
  | EvSleep _ => false
  end.

(** The geocoder calls for [c] in a trace. *)
Definition lookups_of (c : string) (tr : list event) : list event :=
  filter (λ ev, is_geocode_of c ev = true) tr.

(** The names sent to the geocoder, in call order. *)
Definition queries (tr : list event) : list string :=
  omap (λ ev, match ev with EvGeocode q _ => Some q | EvSleep _ => None end) tr.

(** The seconds the run spends in [sleep]. *)
Definition total_sleep (tr : list event) : nat :=
  sum_list_with (λ ev, match ev with EvSleep n => n | EvGeocode _ _ => 0 end) tr.

(** A row of the input table has both cells. *)
Definition complete (r : sample) : Prop :=
  is_Some (Country_of_sample_collection r) ∧ is_Some (tbprofiler_dr_type r).

(** The state of the geocoding loop: the [country_coords] dict and the
    events so far. *)
Record geo_state := GeoState {
  country_coords : gmap string coords;
  trace : list event
}.

(** [Series.unique()]: the distinct values in order of first appearance. *)
Fixpoint unique (l : list string) : list string :=
  match l with
  | [] => []
  | x :: l => x :: filter (λ y, y ≠ x) (unique l)
  end.

(** ** Jitter / layout mapper (lines 38-46, 66-71) *)

Definition jitter_map : gmap string Q :=
  list_to_map
    [("Sensitive", 0.0%Q); ("RR-TB", 0.2%Q); ("MDR-TB", 0.4%Q);
     ("Pre-XDR-TB", 0.6%Q); ("HR-TB", 0.8%Q); ("XDR-TB", 1.0%Q);
     ("Other", 1.2%Q)].

(** [jitter_map.get(label, 0.0)]. *)
Definition jitter (label : string) : Q := default 0.0%Q (jitter_map !! label).

(** The default of [country_coords.get]. *)
Definition default_coords : coords := Coords 0.0%Q 30.0%Q.

(** Lines 66-69.  The longitude is the expression [coords["lon"] + jitter]
    in exact arithmetic; [Binary64.apply_coords] has the rounded sum. *)
Definition apply_coords (cc : gmap string coords) (row : iso_row) : plot_point :=
  let c := default default_coords (cc !! ar_country (ir_agg row)) in
  PlotPoint row (lat c) (lon c + jitter (ar_dr_type (ir_agg row)))%Q.

(** ** The same lines on binary64 numbers *)

#[local] Set Warnings "-inexact-float".

Module Binary64.

Record coords := Coords { lat : float; lon : float }.

(** Lines 38-46: each literal is the nearest binary64 number. *)
Definition jitter_map : gmap string float :=
  list_to_map
    [("Sensitive", 0.0%float); ("RR-TB", 0.2%float); ("MDR-TB", 0.4%float);
     ("Pre-XDR-TB", 0.6%float); ("HR-TB", 0.8%float); ("XDR-TB", 1.0%float);
     ("Other", 1.2%float)].

Definition jitter (label : string) : float :=
  default 0.0%float (jitter_map !! label).

Definition default_coords : coords := Coords 0.0%float 30.0%float.

(** Lines 66-69: the [lat] and [lon] that [apply_coords] returns for a row,
    the sum being the binary64 addition. *)
Definition apply_coords (cc : gmap string coords) (row : iso_row) : coords :=
  let c := default default_coords (cc !! ar_country (ir_agg row)) in
  Coords (lat c) (lon c + jitter (ar_dr_type (ir_agg row)))%float.

End Binary64.

(** ** Renderer (lines 74-131) *)

Definition selected_types : list string :=
  ["Sensitive"; "Other"; "HR-TB"; "RR-TB"; "MDR-TB"; "Pre-XDR-TB"; "XDR-TB"].

Definition color_map : gmap string string :=
  list_to_map
    [("Sensitive", "#008000"); ("Other", "#333333"); ("HR-TB", "#FFD700");
     ("RR-TB", "#FF8C00"); ("MDR-TB", "#9370DB"); ("Pre-XDR-TB", "#F08080");
     ("XDR-TB", "#FF0000")].

(** Line 75: [counts[counts[dr_type].isin(selected_types)]]. *)
Definition select_types (counts : list plot_point) : list plot_point :=
  filter (λ p, pp_dr_type p ∈ selected_types) counts.

(** [Series.max()]: the largest value, NaN ([None]) on an empty column. *)
Definition series_max (l : list Q) : option Q :=
  match l with
  | [] => None
  | x :: l => Some (foldl Qmax x l)
  end.

(** Line 102. *)
Definition max_percent (counts : list plot_point) : option Q :=
  series_max (pp_percent <$> counts).

(** The [marker] dict of a trace. *)
Record marker := Marker {
  size : list Q;
  color : string;
  sizemode : string;
  sizeref : option Q;
  sizemin : Q
}.

(** One [go.Scattergeo] trace; the hover template and the percent labels,
    which are text formatting only, are left out. *)
Record scattergeo := Scattergeo {
  sg_lon : list Q;
  sg_lat : list Q;
  sg_marker : marker;
  sg_name : string;
  sg_customdata : list (string * string * nat * nat * Q)
}.

(** Line 114: [2. * max_percent / (40. ** 2)]. *)
Definition sizeref_of (m : option Q) : option Q :=
  (λ m, 2 * m / 40 ^ 2)%Q <$> m.

Definition customdata_of (p : plot_point) : string * string * nat * nat * Q :=
  let r := ir_agg (pp_row p) in
  (ar_country r, ar_dr_type r, ar_count r, ar_total_samples r, ar_percent r).

Definition cd_country (d : string * string * nat * nat * Q) : string := d.1.1.1.1.
Definition cd_dr_type (d : string * string * nat * nat * Q) : string := d.1.1.1.2.

(** The body of the loop of lines 104-131 for one label. *)
Definition make_trace (counts : list plot_point) (drug : string) : scattergeo :=
  let data := filter (λ p, pp_dr_type p = drug) counts in
  Scattergeo
    (pp_lon <$> data)
    (pp_lat <$> data)
    (Marker (pp_percent <$> data)
            (default "gray" (color_map !! drug))
            "area"
            (sizeref_of (max_percent counts))
            4)
    drug
    (customdata_of <$> data).

(** The traces of the figure, in the order they are added. *)
Definition render (counts : list plot_point) : list scattergeo :=
  make_trace counts <$> selected_types.

(** ** The pipeline *)

Section pipeline.
Variable pycountry_lookup : string → lookup_result.
(** The geocoder: its answer to a query may depend on the events so far. *)
Variable geocode : list event → string → geocode_result.

(** Lines 28-32. *)
Definition get_iso3 (name : string) : option string :=
  match pycountry_lookup name with
  | LookupFound alpha_3 => Some alpha_3
  | LookupRaises => None
  end.

(** Lines 34-35: the [iso_alpha] column, then the rows without it dropped. *)
Definition assign_iso (counts : list agg_row) : list iso_row :=
  omap (λ r, IsoRow r <$> get_iso3 (ar_country r)) counts.

(** One iteration of the loop of lines 51-64. *)
Definition geocode_country (st : geo_state) (country : string) : geo_state :=
  if decide (country = "Georgia") then
    GeoState (<[country := Coords 42.3154 43.3569]> (country_coords st)) (trace st)
  else if decide (country = "Sudan") then
    GeoState (<[country := Coords 12.8628 30.2176]> (country_coords st)) (trace st)
  else
    let answer := geocode (trace st) country in
    let cc :=
      match answer with
      | GeocodeLocation la lo => <[country := Coords la lo]> (country_coords st)
      | GeocodeNone | GeocodeRaises => country_coords st
      end in
    GeoState cc (trace st ++ [EvGeocode country answer; EvSleep 1]).

(** Lines 50-64. *)
Definition geocode_loop (countries : list string) : geo_state :=
  foldl geocode_country (GeoState ∅ []) countries.

(** [counts] after line 35. *)
Definition counts_iso (df : list sample) : list iso_row :=
  assign_iso (aggregate (dropna df)).

(** The state after the loop of lines 51-64. *)
Definition geocoded (df : list sample) : geo_state :=
  geocode_loop (unique ((λ r, ar_country (ir_agg r)) <$> counts_iso df)).

(** [counts] after line 71, when line 71 does not raise. *)
Definition plot_points (df : list sample) : list plot_point :=
  apply_coords (country_coords (geocoded df)) <$> counts_iso df.

(** [counts] after line 75. *)
Definition displayed (df : list sample) : list plot_point :=
  select_types (plot_points df).

(** The figure of the run, when line 71 does not raise. *)
Definition figure (df : list sample) : list scattergeo :=
  render (displayed df).

(** Line 71 as the program runs it.  On a table without rows
    [counts.apply(apply_coords, axis=1)] returns the table itself, and
    assigning its six columns to the two keys [["lat", "lon"]] raises
    ValueError: the run ends there, [None].  Otherwise the two columns are
    added row by row. *)
Definition run_plot_points (df : list sample) : option (list plot_point) :=
  match counts_iso df with
  | [] => None
  | _ :: _ => Some (plot_points df)
  end.

(** Lines 71-131 as the program runs them: the traces handed to
    [fig.show()], or [None] when line 71 has raised. *)
Definition run_figure (df : list sample) : option (list scattergeo) :=
  points ← run_plot_points df; Some (render (select_types points)).

End pipeline.

(** ** Sample services and inputs *)

Definition demo_lookup (name : string) : lookup_result :=
  if decide (name = "Kenya") then LookupFound "KEN"
  else if decide (name = "Georgia") then LookupFound "GEO"
  else if decide (name = "Uganda") then LookupFound "UGA"
  else LookupRaises.

(** A geocoder that knows Kenya, fails on Uganda and finds nothing else. *)
Definition demo_geocode (past : list event) (query : string) : geocode_result :=
  if decide (query = "Kenya") then GeocodeLocation 1.4419683 38.4313975
  else if decide (query = "Uganda") then GeocodeRaises
  else GeocodeNone.

(** The scenario of the specification: eight sensitive and two MDR samples
    from Kenya. *)
Definition kenya_rows : list sample :=
  replicate 8 (Sample (Some "Kenya") (Some "Sensitive")) ++
  replicate 2 (Sample (Some "Kenya") (Some "MDR-TB")).

Definition demo_rows : list sample :=
  kenya_rows ++
  [Sample (Some "Uganda") (Some "XDR-TB");
   Sample (Some "Uganda") (Some "Mixed");
   Sample (Some "Atlantis") (Some "Sensitive");
   Sample (Some "Georgia") (Some "RR-TB");
   Sample None (Some "RR-TB");
   Sample (Some "Georgia") None;
   Sample (Some "Uganda") (Some "XDR-TB")].

(** * Properties *)

Example aggregate_kenya :
  aggregate (dropna kenya_rows) =
  [AggRow "Kenya" "MDR-TB" 2 10 (percent_of 2 10);
   AggRow "Kenya" "Sensitive" 8 10 (percent_of 8 10)].
Proof. vm_compute. reflexivity. Qed.

Example percent_kenya :
  (percent_of 8 10 == 80)%Q ∧ (percent_of 2 10 == 20)%Q.
Proof. split; reflexivity. Qed.

(** ** Grouping *)

Section groupby_facts.
Context {K : Type} `{EqDecision K}.
Variable le : relation K.
Context `{∀ a b, Decision (le a b)}.

Lemma group_size_nil (k : K) : group_size k [] = 0.
Proof. reflexivity. Qed.

Lemma group_size_cons (k x : K) (keys : list K) :
  group_size k (x :: keys) = (if decide (x = k) then 1 else 0) + group_size k keys.
Proof.
  unfold group_size. rewrite filter_cons.
  destruct (decide (x = k)); reflexivity.
Qed.

Lemma group_size_pos (k : K) (keys : list K) :
  k ∈ keys → 1 ≤ group_size k keys.
Proof.
  induction 1 as [k l|k y l _ IH]; rewrite group_size_cons.
  - rewrite decide_True by done. lia.
  - lia.
Qed.

Lemma group_size_zero (k : K) (keys : list K) :
  k ∉ keys → group_size k keys = 0.
Proof.
  induction keys as [|x l IH]; [done|]. intros Hn.
  rewrite not_elem_of_cons in Hn. destruct Hn as [Hne Hn].
  rewrite group_size_cons, decide_False by done. by rewrite IH.
Qed.

Lemma group_keys_perm (keys : list K) :
  (groupby_size le keys).*1 ≡ₚ remove_dups keys.
Proof.
  unfold groupby_size. rewrite <- list_fmap_compose.
  rewrite (list_fmap_ext _ id) by done. rewrite list_fmap_id.
  apply merge_sort_Permutation.
Qed.

(** The result has one row per distinct key. *)
Lemma group_keys_NoDup (keys : list K) : NoDup (groupby_size le keys).*1.
Proof. rewrite group_keys_perm. apply NoDup_remove_dups. Qed.

Lemma elem_of_group_keys (k : K) (keys : list K) :
  k ∈ (groupby_size le keys).*1 ↔ k ∈ keys.
Proof. rewrite group_keys_perm. apply elem_of_remove_dups. Qed.

Lemma elem_of_groupby_size (k : K) (n : nat) (keys : list K) :
  (k, n) ∈ groupby_size le keys ↔ k ∈ keys ∧ n = group_size k keys.
Proof.
  unfold groupby_size. rewrite list_elem_of_fmap. split.
  - intros (k' & [= -> ->] & Hin).
    rewrite merge_sort_Permutation, elem_of_remove_dups in Hin. done.
  - intros [Hin ->]. exists k. split; [done|].
    by rewrite merge_sort_Permutation, elem_of_remove_dups.
Qed.

Lemma groupby_size_snd (keys : list K) :
  groupby_size le keys =
  (λ k, (k, group_size k keys)) <$> (groupby_size le keys).*1.
Proof.
  unfold groupby_size. rewrite <- !list_fmap_compose. reflexivity.
Qed.

(** In a list without duplicates exactly one element equals [x]. *)
Lemma sum_indicator (x : K) (D : list K) :
  NoDup D →
  sum_list_with (λ d, if decide (x = d) then 1 else 0) D =
  if decide (x ∈ D) then 1 else 0.
Proof.
  induction 1 as [|d D Hd _ IH]; [done|]. cbn [sum_list_with]. rewrite IH.
  destruct (decide (x = d)) as [->|Hne].
  - rewrite decide_False by done. rewrite decide_True by constructor. done.
  - destruct (decide (x ∈ D)).
    + rewrite decide_True by (by constructor). done.
    + rewrite decide_False; [done|]. rewrite not_elem_of_cons. done.
Qed.

Lemma sum_list_with_plus {A} (f g : A → nat) (l : list A) :
  sum_list_with (λ a, f a + g a) l = sum_list_with f l + sum_list_with g l.
Proof. induction l as [|a l IH]; cbn [sum_list_with]; lia. Qed.

Lemma sum_list_with_ext {A} (f g : A → nat) (l : list A) :
  (∀ a, f a = g a) → sum_list_with f l = sum_list_with g l.
Proof. intros E. induction l as [|a l IH]; cbn [sum_list_with]; [done|]. by rewrite E, IH. Qed.

(** Summing the group sizes over the distinct keys that satisfy [P] counts
    the rows whose key satisfies [P]. *)
Lemma sum_group_sizes (P : K → Prop) `{∀ k, Decision (P k)} (D L : list K) :
  NoDup D → L ⊆ D →
  sum_list_with (λ d, group_size d L) (filter P D) = length (filter P L).
Proof.
  intros HD. induction L as [|x L IH]; intros Hsub.
  - induction (filter P D) as [|d l IHl]; [done|]. cbn [sum_list_with].
    rewrite IHl, group_size_nil. done.
  - rewrite (sum_list_with_ext _ (λ d, (if decide (x = d) then 1 else 0) + group_size d L)).
    2: { intros d. apply group_size_cons. }
    rewrite sum_list_with_plus, IH by set_solver.
    rewrite sum_indicator by (by apply NoDup_filter).
    rewrite filter_cons. destruct (decide (P x)) as [HP|HP].
    + rewrite decide_True; [done|]. apply list_elem_of_filter. set_solver.
    + rewrite decide_False; [done|]. rewrite list_elem_of_filter. tauto.
Qed.

Lemma filter_eq_absent (c : K) (l : list K) :
  c ∉ l → filter (λ x, x = c) l = [].
Proof.
  induction l as [|y l IH]; [done|]. rewrite not_elem_of_cons. intros [Hne Hn].
  rewrite filter_cons, decide_False by done. by apply IH.
Qed.

Lemma filter_eq_NoDup (c : K) (l : list K) :
  NoDup l → c ∈ l → filter (λ x, x = c) l = [c].
Proof.
  induction 1 as [|x l Hx _ IH]; [by rewrite elem_of_nil|].
  rewrite filter_cons, elem_of_cons. intros [->|Hin].
  - rewrite decide_True by done. by rewrite filter_eq_absent.
  - destruct (decide (x = c)) as [->|_]; [done|]. by apply IH.
Qed.

End groupby_facts.

(** ** Loader and aggregator *)

Lemma elem_of_dropna (c t : string) (df : list sample) :
  (c, t) ∈ dropna df ↔ Sample (Some c) (Some t) ∈ df.
Proof.
  unfold dropna. rewrite list_elem_of_omap. split.
  - intros ([[c'|] [t'|]] & Hin & Heq); simplify_eq/=. done.
  - intros Hin. eexists. split; [exact Hin|done].
Qed.

Lemma bind_singleton {A B} (f : A → list B) (g : A → B) (l : list A) :
  (∀ a, a ∈ l → f a = [g a]) → l ≫= f = g <$> l.
Proof.
  induction l as [|a l IH]; intros Hf; [done|].
  rewrite bind_cons, fmap_cons, Hf by constructor.
  cbn [app]. f_equal. apply IH. intros b Hb. apply Hf. by constructor.
Qed.

Lemma elem_of_counts_grouped (r : count_row) (df : list clean_row) :
  r ∈ counts_grouped df ↔
  (cr_country r, cr_dr_type r) ∈ df ∧
  cr_count r = group_size (cr_country r, cr_dr_type r) df.
Proof.
  unfold counts_grouped. rewrite list_elem_of_fmap. split.
  - intros ([[c t] n] & -> & Hin). by apply elem_of_groupby_size in Hin.
  - intros [Hin Hn]. exists (cr_country r, cr_dr_type r, cr_count r).
    split; [by destruct r|]. by apply elem_of_groupby_size.
Qed.

(** The join finds exactly one total for each group row. *)
Lemma totals_of_country (c : string) (df : list clean_row) :
  c ∈ df.*1 →
  filter (λ tot, tot.1 = c) (total_per_country df) = [(c, group_size c df.*1)].
Proof.
  intros Hin. unfold total_per_country.
  rewrite groupby_size_snd.
  set (ks := (groupby_size str_le df.*1).*1).
  assert (NoDup ks) as Hnd by apply group_keys_NoDup.
  assert (c ∈ ks) as Hc by by apply elem_of_group_keys.
  clearbody ks. induction Hnd as [|k ks Hk _ IH]; [by apply elem_of_nil in Hc|].
  rewrite fmap_cons, filter_cons. cbn [fst]. apply elem_of_cons in Hc as [<-|Hc].
  - rewrite decide_True by done. f_equal.
    clear IH. induction ks as [|k ks IH]; [done|]. apply not_elem_of_cons in Hk as [? ?].
    rewrite fmap_cons, filter_cons. cbn [fst]. rewrite decide_False by done. by apply IH.
  - rewrite decide_False by (intros ->; done). by apply IH.
Qed.

Lemma aggregate_rows (df : list clean_row) :
  aggregate df = agg_of df <$> counts_grouped df.
Proof.
  unfold aggregate, merge_totals. apply bind_singleton. intros r Hr.
  apply elem_of_counts_grouped in Hr as [Hin _].
  rewrite totals_of_country; [done|].
  apply list_elem_of_fmap. by exists (cr_country r, cr_dr_type r).
Qed.

Lemma filter_fmap {A B} (f : A → B) (P : B → Prop) `{∀ b, Decision (P b)}
    (l : list A) :
  filter P (f <$> l) = f <$> filter (λ a, P (f a)) l.
Proof.
  induction l as [|a l IH]; [done|].
  rewrite fmap_cons, !filter_cons, IH. by destruct (decide (P (f a))).
Qed.

Lemma sum_list_with_fmap {A B} (f : B → nat) (g : A → B) (l : list A) :
  sum_list_with f (g <$> l) = sum_list_with (λ a, f (g a)) l.
Proof. induction l as [|a l IH]; cbn; [done|]. by rewrite <- IH. Qed.

Lemma group_size_fst (C : string) (df : list clean_row) :
  group_size C df.*1 = length (filter (λ k, k.1 = C) df).
Proof. unfold group_size. by rewrite filter_fmap, length_fmap. Qed.

(** The group sizes of one country add up to the number of its rows. *)
Lemma counts_grouped_sum (C : string) (df : list clean_row) :
  sum_list_with cr_count (filter (λ r, cr_country r = C) (counts_grouped df)) =
  group_size C df.*1.
Proof.
  unfold counts_grouped. rewrite groupby_size_snd, <- list_fmap_compose.
  rewrite filter_fmap, sum_list_with_fmap. cbn.
  rewrite (sum_group_sizes (λ k, k.1 = C)).
  - by rewrite group_size_fst.
  - apply group_keys_NoDup.
  - intros k Hk. by apply elem_of_group_keys.
Qed.

Lemma rows_of_country_aggregate (C : string) (df : list clean_row) :
  rows_of_country C (aggregate df) =
  agg_of df <$> filter (λ r, cr_country r = C) (counts_grouped df).
Proof. unfold rows_of_country. by rewrite aggregate_rows, filter_fmap. Qed.

Lemma elem_of_aggregate (r : agg_row) (df : list clean_row) :
  r ∈ aggregate df →
  (ar_country r, ar_dr_type r) ∈ df ∧
  ar_count r = group_size (ar_country r, ar_dr_type r) df ∧
  ar_total_samples r = group_size (ar_country r) df.*1 ∧
  ar_percent r = percent_of (ar_count r) (ar_total_samples r).
Proof.
  rewrite aggregate_rows, list_elem_of_fmap. intros (cr & -> & Hin).
  apply elem_of_counts_grouped in Hin as [Hin Hn]. cbn. done.
Qed.

(** C1: for every input table and every country [C] that occurs in a row
    with both fields present, the raw counts of the (country, type) groups
    of [C] add up to the total-samples value of [C]: the per-country
    grouping holds exactly one row [(C, total)], the counts of line 23 sum
    to [total], and so do the counts of the joined table, each row of which
    carries [total] in its total-samples column. *)
Theorem counts_sum_to_total (df : list sample) (C t0 : string) :
  Sample (Some C) (Some t0) ∈ df →
  ∃ total : nat,
    filter (λ tot, tot.1 = C) (total_per_country (dropna df)) = [(C, total)] ∧
    sum_list_with cr_count
      (filter (λ r, cr_country r = C) (counts_grouped (dropna df))) = total ∧
    sum_list_with ar_count (rows_of_country C (aggregate (dropna df))) = total ∧
    Forall (λ r, ar_total_samples r = total)
      (rows_of_country C (aggregate (dropna df))).
Proof.
  intros Hin. apply elem_of_dropna in Hin.
  exists (group_size C (dropna df).*1). split; [|split; [|split]].
  - apply totals_of_country. apply list_elem_of_fmap. by exists (C, t0).
  - apply counts_grouped_sum.
  - rewrite rows_of_country_aggregate, sum_list_with_fmap. cbn.
    apply counts_grouped_sum.
  - apply Forall_forall. intros r [HC Hr]%list_elem_of_filter.
    apply elem_of_aggregate in Hr as (_ & _ & -> & _). by rewrite HC.
Qed.

Lemma counts_sum_to_total_witness :
  ∃ total : nat,
    filter (λ tot, tot.1 = "Kenya") (total_per_country (dropna kenya_rows))
      = [("Kenya", total)] ∧
    sum_list_with cr_count
      (filter (λ r, cr_country r = "Kenya") (counts_grouped (dropna kenya_rows)))
      = total ∧
    sum_list_with ar_count (rows_of_country "Kenya" (aggregate (dropna kenya_rows)))
      = total ∧
    Forall (λ r, ar_total_samples r = total)
      (rows_of_country "Kenya" (aggregate (dropna kenya_rows))).
Proof.
  apply (counts_sum_to_total kenya_rows "Kenya" "Sensitive").
  vm_compute. constructor.
Defined.

(** ** Percentages *)

Lemma percent_of_plus (a b T : nat) :
  (percent_of a T + percent_of b T == percent_of (a + b) T)%Q.
Proof.
  unfold percent_of, Qdiv. rewrite Nat2Z.inj_add, inject_Z_plus. ring.
Qed.

Lemma percent_of_zero (T : nat) : (percent_of 0 T == 0)%Q.
Proof. unfold percent_of, Qdiv. cbn [Z.of_nat]. ring. Qed.

Lemma inject_nat_nonzero (T : nat) :
  1 ≤ T → ¬ (inject_Z (Z.of_nat T) == 0)%Q.
Proof. intros HT. unfold Qeq, inject_Z. cbn. lia. Qed.

Lemma percent_of_whole (T : nat) : 1 ≤ T → (percent_of T T == 100)%Q.
Proof.
  intros HT. unfold percent_of. field. by apply inject_nat_nonzero.
Qed.

(** Percentages over a common total add up like the counts do. *)
Lemma series_sum_percent {A} (f : A → nat) (T : nat) (l : list A) :
  (series_sum ((λ a, percent_of (f a) T) <$> l) ==
   percent_of (sum_list_with f l) T)%Q.
Proof.
  induction l as [|a l IH]; cbn [fmap list_fmap series_sum foldr sum_list_with].
  - symmetry. apply percent_of_zero.
  - fold (series_sum ((λ a, percent_of (f a) T) <$> l)).
    rewrite IH. apply percent_of_plus.
Qed.

(** C2: for every country present after row cleaning, the percent values
    of all its rows in the aggregate (as it is after line 25, before the ISO
    drop and before the seven-type filter) add up to 100, in the exact
    arithmetic that the floating-point computation approximates. *)
Theorem percents_sum_to_100 (df : list sample) (C t0 : string) :
  Sample (Some C) (Some t0) ∈ df →
  (series_sum (ar_percent <$> rows_of_country C (aggregate (dropna df))) == 100)%Q.
Proof.
  intros Hin. apply elem_of_dropna in Hin.
  set (T := group_size C (dropna df).*1).
  assert (1 ≤ T) as HT.
  { apply group_size_pos, list_elem_of_fmap. by exists (C, t0). }
  rewrite rows_of_country_aggregate, <- list_fmap_compose.
  rewrite (list_fmap_ext _ (λ r, percent_of (cr_count r) T)).
  - rewrite series_sum_percent, counts_grouped_sum. by apply percent_of_whole.
  - intros i r Hr. apply list_elem_of_lookup_2 in Hr.
    apply list_elem_of_filter in Hr as [HC _]. cbn. by rewrite HC.
Qed.

Lemma percents_sum_to_100_witness :
  (series_sum (ar_percent <$> rows_of_country "Uganda" (aggregate (dropna demo_rows)))
   == 100)%Q.
Proof.
  apply (percents_sum_to_100 demo_rows "Uganda" "Mixed").
  vm_compute. do 11 constructor 2. constructor.
Defined.

(** C3: the divisor of the percentage is never zero.  Every row of the
    aggregate stems from at least one input row with both fields present,
    its count and its total-samples value are at least 1, the divisor is a
    non-zero number, and the percent column is 100 x count / total. *)
Theorem total_samples_nonzero (df : list sample) :
  Forall (λ r,
    Sample (Some (ar_country r)) (Some (ar_dr_type r)) ∈ df ∧
    1 ≤ ar_count r ∧
    1 ≤ ar_total_samples r ∧
    ¬ (inject_Z (Z.of_nat (ar_total_samples r)) == 0)%Q ∧
    (ar_percent r ==
     100 * inject_Z (Z.of_nat (ar_count r)) / inject_Z (Z.of_nat (ar_total_samples r)))%Q)
    (aggregate (dropna df)).
Proof.
  apply Forall_forall. intros r Hr.
  apply elem_of_aggregate in Hr as (Hin & Hn & Htot & Hp).
  assert (1 ≤ ar_total_samples r) as HT.
  { rewrite Htot. apply group_size_pos, list_elem_of_fmap.
    by exists (ar_country r, ar_dr_type r). }
  split; [by apply elem_of_dropna|].
  split; [rewrite Hn; by apply group_size_pos|].
  split; [done|]. split; [by apply inject_nat_nonzero|].
  rewrite Hp. unfold percent_of. field. by apply inject_nat_nonzero.
Qed.

(** ** From the aggregate to the figure *)

Section pipeline_facts.
Variable pycountry_lookup : string → lookup_result.
Variable geocode : list event → string → geocode_result.

Lemma elem_of_assign_iso (r : iso_row) (counts : list agg_row) :
  r ∈ assign_iso pycountry_lookup counts ↔
  ir_agg r ∈ counts ∧
  get_iso3 pycountry_lookup (ar_country (ir_agg r)) = Some (ir_iso_alpha r).
Proof.
  unfold assign_iso. rewrite list_elem_of_omap. split.
  - intros (a & Hin & Heq). destruct (get_iso3 _ _) eqn:E; simplify_eq/=. done.
  - intros [Hin Heq]. exists (ir_agg r). split; [done|]. rewrite Heq. by destruct r.
Qed.

Lemma elem_of_plot_points (p : plot_point) (df : list sample) :
  p ∈ plot_points pycountry_lookup geocode df ↔
  pp_row p ∈ counts_iso pycountry_lookup df ∧
  p = apply_coords (country_coords (geocoded pycountry_lookup geocode df)) (pp_row p).
Proof.
  unfold plot_points. rewrite list_elem_of_fmap. split.
  - intros (r & -> & Hin). done.
  - intros [Hin Hp]. by exists (pp_row p).
Qed.

Lemma elem_of_displayed (p : plot_point) (df : list sample) :
  p ∈ displayed pycountry_lookup geocode df ↔
  pp_dr_type p ∈ selected_types ∧ p ∈ plot_points pycountry_lookup geocode df.
Proof. unfold displayed, select_types. by rewrite list_elem_of_filter. Qed.

End pipeline_facts.

Lemma elem_of_render (tr : scattergeo) (counts : list plot_point) :
  tr ∈ render counts ↔
  sg_name tr ∈ selected_types ∧ tr = make_trace counts (sg_name tr).
Proof.
  unfold render. rewrite list_elem_of_fmap. split.
  - intros (drug & -> & Hin). done.
  - intros [Hin Htr]. by exists (sg_name tr).
Qed.

(** The columns of a trace are read off the same rows. *)
Lemma trace_columns (tr : scattergeo) (counts : list plot_point) :
  tr ∈ render counts →
  ∃ data : list plot_point,
    data = filter (λ p, pp_dr_type p = sg_name tr) counts ∧
    sg_lon tr = pp_lon <$> data ∧
    sg_lat tr = pp_lat <$> data ∧
    size (sg_marker tr) = pp_percent <$> data ∧
    sg_customdata tr = customdata_of <$> data.
Proof.
  intros [_ ->]%elem_of_render. eexists. split; [reflexivity|]. done.
Qed.

Lemma elem_of_customdata (d : string * string * nat * nat * Q)
    (tr : scattergeo) (counts : list plot_point) :
  tr ∈ render counts → d ∈ sg_customdata tr →
  ∃ p, p ∈ counts ∧ pp_dr_type p = sg_name tr ∧ d = customdata_of p.
Proof.
  intros (data & -> & _ & _ & _ & ->)%trace_columns.
  intros (p & -> & [Ht Hp]%list_elem_of_filter)%list_elem_of_fmap. eauto.
Qed.

(** A displayed point shows up, at one index, in all the columns of the
    trace of its label. *)
Lemma displayed_point_in_trace (p : plot_point) (counts : list plot_point) :
  p ∈ counts → pp_dr_type p ∈ selected_types →
  ∃ (tr : scattergeo) (i : nat),
    tr ∈ render counts ∧ sg_name tr = pp_dr_type p ∧
    sg_customdata tr !! i = Some (customdata_of p) ∧
    sg_lat tr !! i = Some (pp_lat p) ∧
    sg_lon tr !! i = Some (pp_lon p) ∧
    size (sg_marker tr) !! i = Some (pp_percent p).
Proof.
  intros Hp Ht.
  assert (p ∈ filter (λ q, pp_dr_type q = pp_dr_type p) counts) as Hin
    by by apply list_elem_of_filter.
  apply list_elem_of_lookup in Hin as [i Hi].
  exists (make_trace counts (pp_dr_type p)), i.
  split; [by apply elem_of_render|]. split; [done|].
  cbn. rewrite !list_lookup_fmap, Hi. done.
Qed.

Lemma filter_none {A} (P : A → Prop) `{∀ a, Decision (P a)} (l : list A) :
  (∀ a, a ∈ l → ¬ P a) → filter P l = [].
Proof.
  induction l as [|a l IH]; intros Hn; [done|].
  rewrite filter_cons, decide_False by (apply Hn; constructor).
  apply IH. intros b Hb. apply Hn. by constructor.
Qed.

(** ** The ISO filter *)

(** C4: a country whose ISO lookup fails ([get_iso3] gives [None], the
    lookup having raised) loses every aggregate row at line 35, whatever
    the resistance types of those rows, and therefore occurs neither among
    the plot points nor in the data of any rendered trace.  The lookup is a
    function of the name alone and is consulted only at line 34. *)
Theorem unrecognized_country_never_rendered
    (pycountry_lookup : string → lookup_result)
    (geocode : list event → string → geocode_result)
    (df : list sample) (C : string) :
  get_iso3 pycountry_lookup C = None →
  filter (λ r, ar_country (ir_agg r) = C) (counts_iso pycountry_lookup df) = [] ∧
  Forall (λ p, pp_country p ≠ C) (plot_points pycountry_lookup geocode df) ∧
  Forall (λ tr, Forall (λ d, cd_country d ≠ C) (sg_customdata tr) ∧
                length (sg_lon tr) = length (sg_customdata tr) ∧
                length (sg_lat tr) = length (sg_customdata tr) ∧
                length (size (sg_marker tr)) = length (sg_customdata tr))
    (figure pycountry_lookup geocode df).
Proof.
  intros Hnone.
  assert (∀ r, r ∈ counts_iso pycountry_lookup df → ar_country (ir_agg r) ≠ C) as Hiso.
  { intros r [_ Hr]%elem_of_assign_iso HC. rewrite HC in Hr. congruence. }
  assert (∀ p, p ∈ plot_points pycountry_lookup geocode df → pp_country p ≠ C) as Hpp.
  { intros p [Hr _]%elem_of_plot_points. by apply Hiso. }
  split; [|split].
  - by apply filter_none.
  - by apply Forall_forall.
  - apply Forall_forall. intros tr Htr. split.
    + apply Forall_forall. intros d Hd.
      destruct (elem_of_customdata d tr _ Htr Hd) as (p & Hp & _ & ->).
      apply elem_of_displayed in Hp as [_ Hp]. by apply Hpp.
    + apply trace_columns in Htr as (data & _ & -> & -> & -> & ->).
      by rewrite !length_fmap.
Qed.

Lemma unrecognized_country_never_rendered_witness :
  filter (λ r, ar_country (ir_agg r) = "Atlantis") (counts_iso demo_lookup demo_rows) = [] ∧
  Forall (λ p, pp_country p ≠ "Atlantis") (plot_points demo_lookup demo_geocode demo_rows) ∧
  Forall (λ tr, Forall (λ d, cd_country d ≠ "Atlantis") (sg_customdata tr) ∧
                length (sg_lon tr) = length (sg_customdata tr) ∧
                length (sg_lat tr) = length (sg_customdata tr) ∧
                length (size (sg_marker tr)) = length (sg_customdata tr))
    (figure demo_lookup demo_geocode demo_rows).
Proof.
  apply (unrecognized_country_never_rendered demo_lookup demo_geocode demo_rows "Atlantis").
  reflexivity.
Defined.

(** ** Jitter and coordinates *)

(** C6: the jitter offset is a fixed function of the label, with the seven
    listed values and 0.0 for every other label, and [apply_coords] adds it
    to the base longitude resolved for the country of the row (the cached
    entry, or the default), leaving the latitude as resolved. *)
Theorem jitter_fixed_and_additive :
  (∀ label : string,
     jitter label =
     if decide (label = "Sensitive") then 0.0%Q
     else if decide (label = "RR-TB") then 0.2%Q
     else if decide (label = "MDR-TB") then 0.4%Q
     else if decide (label = "Pre-XDR-TB") then 0.6%Q
     else if decide (label = "HR-TB") then 0.8%Q
     else if decide (label = "XDR-TB") then 1.0%Q
     else if decide (label = "Other") then 1.2%Q
     else 0.0%Q) ∧
  (∀ (cc : gmap string coords) (row : iso_row),
     let base := default default_coords (cc !! ar_country (ir_agg row)) in
     pp_lon (apply_coords cc row) = (lon base + jitter (ar_dr_type (ir_agg row)))%Q ∧
     pp_lat (apply_coords cc row) = lat base ∧
     pp_row (apply_coords cc row) = row).
Proof.
  split; [|done]. intros label.
  repeat (destruct (decide _) as [->|?]; [reflexivity|]).
  unfold jitter, jitter_map.
  rewrite (not_elem_of_list_to_map_1 _ label); [done|].
  cbn [fmap list_fmap fst]. rewrite !not_elem_of_cons, elem_of_nil. tauto.
Qed.

(** C5: an aggregate row whose country has no entry in the coordinate
    cache is kept by the coordinate step: the step returns one plot point
    per row, and the point of this row lies at latitude 0.0 and longitude
    30.0 plus the jitter of its label.  When the label is one of the seven
    displayed ones, the point is on the map, in the trace of its label; a
    point with any other label is removed afterwards by the label filter of
    line 75, which does not look at coordinates. *)
Theorem missing_coords_default_point
    (pycountry_lookup : string → lookup_result)
    (geocode : list event → string → geocode_result)
    (df : list sample) (r : iso_row) :
  r ∈ counts_iso pycountry_lookup df →
  country_coords (geocoded pycountry_lookup geocode df) !! ar_country (ir_agg r) = None →
  let p := PlotPoint r 0.0%Q (30.0 + jitter (ar_dr_type (ir_agg r)))%Q in
  length (plot_points pycountry_lookup geocode df) =
    length (counts_iso pycountry_lookup df) ∧
  p ∈ plot_points pycountry_lookup geocode df ∧
  match decide (ar_dr_type (ir_agg r) ∈ selected_types) with
  | left _ =>
      ∃ (tr : scattergeo) (i : nat),
        tr ∈ figure pycountry_lookup geocode df ∧
        sg_name tr = ar_dr_type (ir_agg r) ∧
        sg_customdata tr !! i = Some (customdata_of p) ∧
        sg_lat tr !! i = Some 0.0%Q ∧
        sg_lon tr !! i = Some (30.0 + jitter (ar_dr_type (ir_agg r)))%Q
  | right _ => p ∉ displayed pycountry_lookup geocode df
  end.
Proof.
  intros Hr Hnone p.
  assert (p ∈ plot_points pycountry_lookup geocode df) as Hp.
  { apply elem_of_plot_points. split; [done|].
    unfold apply_coords. cbn [pp_row p]. rewrite Hnone. done. }
  split; [apply length_fmap|]. split; [done|].
  destruct (decide _) as [Ht|Ht].
  - destruct (displayed_point_in_trace p (displayed pycountry_lookup geocode df))
      as (tr & i & Htr & Hname & Hcd & Hlat & Hlon & _).
    + by apply elem_of_displayed.
    + done.
    + exists tr, i. done.
  - intros [Ht' _]%elem_of_displayed. done.
Qed.

Lemma missing_coords_default_point_witness :
  let r := IsoRow (AggRow "Uganda" "XDR-TB" 2 3 (percent_of 2 3)) "UGA" in
  let p := PlotPoint r 0.0%Q (30.0 + jitter "XDR-TB")%Q in
  length (plot_points demo_lookup demo_geocode demo_rows) =
    length (counts_iso demo_lookup demo_rows) ∧
  p ∈ plot_points demo_lookup demo_geocode demo_rows ∧
  match decide ("XDR-TB" ∈ selected_types) with
  | left _ =>
      ∃ (tr : scattergeo) (i : nat),
        tr ∈ figure demo_lookup demo_geocode demo_rows ∧
        sg_name tr = "XDR-TB" ∧
        sg_customdata tr !! i = Some (customdata_of p) ∧
        sg_lat tr !! i = Some 0.0%Q ∧
        sg_lon tr !! i = Some (30.0 + jitter "XDR-TB")%Q
  | right _ => p ∉ displayed demo_lookup demo_geocode demo_rows
  end.
Proof.
  apply (missing_coords_default_point demo_lookup demo_geocode demo_rows
           (IsoRow (AggRow "Uganda" "XDR-TB" 2 3 (percent_of 2 3)) "UGA")).
  - vm_compute. do 4 constructor 2. constructor.
  - vm_compute. reflexivity.
Defined.




(** ** The renderer *)

(** When line 71 does not raise, the run continues row by row. *)
Lemma run_figure_Some (pycountry_lookup : string → lookup_result)
    (geocode : list event → string → geocode_result)
    (df : list sample) (fig : list scattergeo) :
  run_figure pycountry_lookup geocode df = Some fig →
  counts_iso pycountry_lookup df ≠ [] ∧
  run_plot_points pycountry_lookup geocode df =
    Some (plot_points pycountry_lookup geocode df) ∧
  fig = figure pycountry_lookup geocode df.
Proof.
  unfold run_figure, run_plot_points.
  destruct (counts_iso pycountry_lookup df) eqn:E; [done|].
  cbn. intros [= <-]. done.
Qed.

(** C7: whenever the run draws a figure, the figure has one trace for
    each of the seven labels Sensitive, Other, HR-TB, RR-TB, MDR-TB,
    Pre-XDR-TB, XDR-TB and no other trace; every point of a trace carries
    the label of the trace; the rendered rows are the plot points with one
    of the seven labels; and a plot point with any other label, though it
    passed every earlier filter, is in no trace. *)
Theorem only_selected_types_rendered
    (pycountry_lookup : string → lookup_result)
    (geocode : list event → string → geocode_result)
    (df : list sample) (fig : list scattergeo) :
  run_figure pycountry_lookup geocode df = Some fig →
  sg_name <$> fig =
    ["Sensitive"; "Other"; "HR-TB"; "RR-TB"; "MDR-TB"; "Pre-XDR-TB"; "XDR-TB"] ∧
  Forall (λ tr,
      Forall (λ d, cd_dr_type d = sg_name tr) (sg_customdata tr) ∧
      length (sg_lon tr) = length (sg_customdata tr) ∧
      length (sg_lat tr) = length (sg_customdata tr) ∧
      length (size (sg_marker tr)) = length (sg_customdata tr))
    fig ∧
  ∃ points : list plot_point,
    run_plot_points pycountry_lookup geocode df = Some points ∧
    fig = render (filter (λ p, pp_dr_type p ∈ selected_types) points) ∧
    Forall (λ p,
        (p ∉ filter (λ p, pp_dr_type p ∈ selected_types) points) ∧
        Forall (λ tr, customdata_of p ∉ sg_customdata tr) fig)
      (filter (λ p, pp_dr_type p ∉ selected_types) points).
Proof.
  intros (_ & Hpts & ->)%run_figure_Some.
  split; [|split].
  - unfold figure, render. rewrite <- list_fmap_compose.
    rewrite (list_fmap_ext _ id) by done. by rewrite list_fmap_id.
  - apply Forall_forall. intros tr Htr. split.
    + apply Forall_forall. intros d Hd.
      destruct (elem_of_customdata d tr _ Htr Hd) as (p & _ & Ht & ->). done.
    + apply trace_columns in Htr as (data & _ & -> & -> & -> & ->).
      by rewrite !length_fmap.
  - exists (plot_points pycountry_lookup geocode df).
    split; [done|]. split; [reflexivity|].
    apply Forall_forall. intros p [Ht Hp]%list_elem_of_filter. split.
    + intros [Ht' _]%list_elem_of_filter. done.
    + apply Forall_forall. intros tr Htr Hd.
      destruct (elem_of_customdata _ tr _ Htr Hd) as (q & _ & Hq & Heq).
      apply elem_of_render in Htr as [Hname _].
      assert (pp_dr_type p = pp_dr_type q) as E.
      { unfold customdata_of in Heq. unfold pp_dr_type. congruence. }
      apply Ht. by rewrite E, Hq.
Qed.

Lemma only_selected_types_rendered_witness :
  let fig := figure demo_lookup demo_geocode demo_rows in
  sg_name <$> fig =
    ["Sensitive"; "Other"; "HR-TB"; "RR-TB"; "MDR-TB"; "Pre-XDR-TB"; "XDR-TB"] ∧
  Forall (λ tr,
      Forall (λ d, cd_dr_type d = sg_name tr) (sg_customdata tr) ∧
      length (sg_lon tr) = length (sg_customdata tr) ∧
      length (sg_lat tr) = length (sg_customdata tr) ∧
      length (size (sg_marker tr)) = length (sg_customdata tr))
    fig ∧
  ∃ points : list plot_point,
    run_plot_points demo_lookup demo_geocode demo_rows = Some points ∧
    fig = render (filter (λ p, pp_dr_type p ∈ selected_types) points) ∧
    Forall (λ p,
        (p ∉ filter (λ p, pp_dr_type p ∈ selected_types) points) ∧
        Forall (λ tr, customdata_of p ∉ sg_customdata tr) fig)
      (filter (λ p, pp_dr_type p ∉ selected_types) points).
Proof.
  intros fig.
  apply (only_selected_types_rendered demo_lookup demo_geocode demo_rows fig).
  vm_compute. reflexivity.
Defined.

Lemma Qmax_either (x y : Q) : Qmax x y = x ∨ Qmax x y = y.
Proof. unfold Qmax, GenericMinMax.gmax. destruct (x ?= y)%Q; auto. Qed.

Lemma foldl_Qmax_spec (l : list Q) (x : Q) :
  foldl Qmax x l ∈ x :: l ∧
  (x <= foldl Qmax x l)%Q ∧
  Forall (λ y, (y <= foldl Qmax x l)%Q) l.
Proof.
  revert x. induction l as [|y l IH]; intros x; cbn [foldl].
  - split; [constructor|]. split; [apply Qle_refl|constructor].
  - destruct (IH (Qmax x y)) as (Hin & Hle & Hall).
    split; [|split].
    + apply elem_of_cons in Hin as [->|Hin].
      * destruct (Qmax_either x y) as [->| ->]; [constructor|].
        constructor 2. constructor.
      * do 2 constructor 2. done.
    + eapply Qle_trans; [apply Q.le_max_l|exact Hle].
    + constructor; [|done]. eapply Qle_trans; [apply Q.le_max_r|exact Hle].
Qed.

(** [Series.max()] returns an element of the column that bounds the
    column, and NaN exactly on the empty column. *)
Lemma series_max_spec (l : list Q) :
  match series_max l with
  | Some M => M ∈ l ∧ Forall (λ y, (y <= M)%Q) l
  | None => l = []
  end.
Proof.
  destruct l as [|x l]; [done|]. cbn [series_max].
  destruct (foldl_Qmax_spec l x) as (Hin & Hle & Hall).
  split; [done|]. by constructor.
Qed.

(** C9: whenever the run draws a figure, the figure has seven traces and
    the sizing reference of each of them is the same number
    2 x M / 40^2, where M is the maximum of the percent column over all
    displayed rows, whatever their category.  M is the percentage of some
    displayed point and bounds the marker sizes of every trace, so all
    bubbles are scaled against one common reference.  (M is not a number,
    [None], only when rows were plotted but none has a displayed label.) *)
Theorem shared_sizeref
    (pycountry_lookup : string → lookup_result)
    (geocode : list event → string → geocode_result)
    (df : list sample) (fig : list scattergeo) :
  run_figure pycountry_lookup geocode df = Some fig →
  length fig = 7 ∧
  ∃ points : list plot_point,
    run_plot_points pycountry_lookup geocode df = Some points ∧
    points ≠ [] ∧
    Forall (λ tr,
        sizeref (sg_marker tr) =
          (λ M, 2 * M / 40 ^ 2)%Q <$> max_percent (select_types points) ∧
        sizemode (sg_marker tr) = "area")
      fig ∧
    match max_percent (select_types points) with
    | Some M =>
        (∃ p, p ∈ select_types points ∧ pp_percent p = M) ∧
        Forall (λ tr, Forall (λ s, (s <= M)%Q) (size (sg_marker tr))) fig
    | None => select_types points = []
    end.
Proof.
  intros (Hne & Hpts & ->)%run_figure_Some.
  split; [reflexivity|].
  exists (plot_points pycountry_lookup geocode df). split; [done|].
  split. { unfold plot_points. intros H%fmap_nil_inv. done. }
  fold (displayed pycountry_lookup geocode df). split.
  - apply Forall_forall. intros tr [_ ->]%elem_of_render. done.
  - unfold max_percent.
    pose proof (series_max_spec (pp_percent <$> displayed pycountry_lookup geocode df)) as Hmax.
    destruct (series_max _) as [M|].
    + destruct Hmax as [Hin Hall]. split.
      * apply list_elem_of_fmap in Hin as (p & -> & Hp). eauto.
      * apply Forall_forall. intros tr Htr.
        apply trace_columns in Htr as (data & -> & _ & _ & -> & _).
        apply Forall_forall. intros s (p & -> & [_ Hp]%list_elem_of_filter)%list_elem_of_fmap.
        rewrite Forall_forall in Hall. apply Hall.
        apply list_elem_of_fmap. eauto.
    + by apply fmap_nil_inv in Hmax.
Qed.

Lemma shared_sizeref_witness :
  let fig := figure demo_lookup demo_geocode demo_rows in
  length fig = 7 ∧
  ∃ points : list plot_point,
    run_plot_points demo_lookup demo_geocode demo_rows = Some points ∧
    points ≠ [] ∧
    Forall (λ tr,
        sizeref (sg_marker tr) =
          (λ M, 2 * M / 40 ^ 2)%Q <$> max_percent (select_types points) ∧
        sizemode (sg_marker tr) = "area")
      fig ∧
    match max_percent (select_types points) with
    | Some M =>
        (∃ p, p ∈ select_types points ∧ pp_percent p = M) ∧
        Forall (λ tr, Forall (λ s, (s <= M)%Q) (size (sg_marker tr))) fig
    | None => select_types points = []
    end.
Proof.
  intros fig.
  apply (shared_sizeref demo_lookup demo_geocode demo_rows fig).
  vm_compute. reflexivity.
Defined.

Example demo_figure_sizeref :
  Forall (λ tr, sizeref (sg_marker tr) = Some (2 * 100 / 40 ^ 2)%Q)
    (figure demo_lookup demo_geocode demo_rows).
Proof. vm_compute. repeat constructor. Qed.

(** ** The geocoding loop *)

Lemma elem_of_unique (y : string) (l : list string) : y ∈ unique l ↔ y ∈ l.
Proof.
  induction l as [|x l IH]; [done|]. cbn [unique].
  rewrite !elem_of_cons, list_elem_of_filter, IH.
  destruct (decide (y = x)); tauto.
Qed.

Lemma NoDup_unique (l : list string) : NoDup (unique l).
Proof.
  induction l as [|x l IH]; cbn [unique]; constructor.
  - rewrite list_elem_of_filter. tauto.
  - by apply NoDup_filter.
Qed.

Lemma lookups_of_app (c : string) (l k : list event) :
  lookups_of c (l ++ k) = lookups_of c l ++ lookups_of c k.
Proof. apply filter_app. Qed.

Section geocoding.
Variable geocode : list event → string → geocode_result.

(** An iteration for another country leaves the entry of [c] alone and
    makes no call for [c]. *)
Lemma geocode_country_frame (st : geo_state) (x c : string) :
  c ≠ x →
  country_coords (geocode_country geocode st x) !! c = country_coords st !! c ∧
  ∃ new, trace (geocode_country geocode st x) = trace st ++ new ∧
         lookups_of c new = [].
Proof.
  intros Hne. unfold geocode_country.
  destruct (decide (x = "Georgia")); [|destruct (decide (x = "Sudan"))]; cbn.
  - rewrite lookup_insert_ne by done. split; [done|]. exists []. by rewrite app_nil_r.
  - rewrite lookup_insert_ne by done. split; [done|]. exists []. by rewrite app_nil_r.
  - split.
    + destruct (geocode (trace st) x); [done|done|]. by rewrite lookup_insert_ne.
    + eexists. split; [reflexivity|]. unfold lookups_of.
      rewrite filter_cons. cbn. rewrite bool_decide_eq_false_2 by done.
      rewrite decide_False by done. done.
Qed.

Lemma geocode_loop_frame (l : list string) (st : geo_state) (c : string) :
  c ∉ l →
  country_coords (foldl (geocode_country geocode) st l) !! c = country_coords st !! c ∧
  ∃ new, trace (foldl (geocode_country geocode) st l) = trace st ++ new ∧
         lookups_of c new = [].
Proof.
  revert st. induction l as [|x l IH]; intros st Hn; cbn [foldl].
  - split; [done|]. exists []. by rewrite app_nil_r.
  - apply not_elem_of_cons in Hn as [Hne Hn].
    destruct (IH (geocode_country geocode st x) Hn) as (Hcc & new2 & Htr2 & Hno2).
    destruct (geocode_country_frame st x c Hne) as (Hcc1 & new1 & Htr1 & Hno1).
    split; [by rewrite Hcc|]. exists (new1 ++ new2). split.
    + by rewrite Htr2, Htr1, app_assoc.
    + by rewrite lookups_of_app, Hno1, Hno2.
Qed.

(** What one iteration stores for an answer of the geocoder. *)
Lemma geocode_country_lookup (st : geo_state) (c : string) :
  c ≠ "Georgia" → c ≠ "Sudan" → country_coords st !! c = None →
  let answer := geocode (trace st) c in
  trace (geocode_country geocode st c) =
    trace st ++ [EvGeocode c answer; EvSleep 1] ∧
  country_coords (geocode_country geocode st c) !! c =
    match answer with
    | GeocodeLocation la lo => Some (Coords la lo)
    | GeocodeNone | GeocodeRaises => None
    end.
Proof.
  intros HG HS Hnone answer. unfold geocode_country.
  rewrite !decide_False by done. cbn. split; [done|]. fold answer.
  destruct answer; [done|done|]. by rewrite lookup_insert_eq.
Qed.

Lemma geocode_loop_lookup (l : list string) (st : geo_state) (c : string) :
  NoDup l → c ∈ l → c ≠ "Georgia" → c ≠ "Sudan" →
  country_coords st !! c = None →
  ∃ pre post : list event,
    let answer := geocode (trace st ++ pre) c in
    trace (foldl (geocode_country geocode) st l) =
      (trace st ++ pre) ++ [EvGeocode c answer; EvSleep 1] ++ post ∧
    lookups_of c pre = [] ∧ lookups_of c post = [] ∧
    country_coords (foldl (geocode_country geocode) st l) !! c =
      match answer with
      | GeocodeLocation la lo => Some (Coords la lo)
      | GeocodeNone | GeocodeRaises => None
      end.
Proof.
  intros Hnd. revert st. induction Hnd as [|x l Hx Hnd IH]; intros st Hin HG HS Hnone.
  - by apply elem_of_nil in Hin.
  - cbn [foldl]. destruct (decide (c = x)) as [<-|Hne].
    + destruct (geocode_country_lookup st c HG HS Hnone) as [Htr Hcc].
      destruct (geocode_loop_frame l (geocode_country geocode st c) c Hx)
        as (Hcc' & post & Htr' & Hpost).
      exists [], post. cbn zeta. rewrite app_nil_r.
      split; [by rewrite Htr', Htr, <- app_assoc|]. split; [done|]. split; [done|].
      by rewrite Hcc'.
    + apply elem_of_cons in Hin as [?|Hin]; [done|].
      destruct (geocode_country_frame st x c Hne) as (Hcc1 & new & Htr1 & Hnew).
      destruct (IH (geocode_country geocode st x) Hin HG HS) as (pre & post & H).
      { by rewrite Hcc1. }
      cbn zeta in H. rewrite Htr1 in H.
      destruct H as (Htr & Hpre & Hpost & Hcc).
      exists (new ++ pre), post. cbn zeta. rewrite (app_assoc (trace st) new pre).
      split; [done|]. split; [by rewrite lookups_of_app, Hnew, Hpre|]. done.
Qed.

(** An override country gets its fixed pair, and no call is made for it. *)
Lemma geocode_loop_override (l : list string) (st : geo_state) (c : string) (fixed : coords) :
  NoDup l → c ∈ l →
  (∀ st', country_coords (geocode_country geocode st' c) !! c = Some fixed ∧
          trace (geocode_country geocode st' c) = trace st') →
  country_coords (foldl (geocode_country geocode) st l) !! c = Some fixed ∧
  ∃ new, trace (foldl (geocode_country geocode) st l) = trace st ++ new ∧
         lookups_of c new = [].
Proof.
  intros Hnd. revert st. induction Hnd as [|x l Hx Hnd IH]; intros st Hin Hstep.
  - by apply elem_of_nil in Hin.
  - cbn [foldl]. destruct (decide (c = x)) as [<-|Hne].
    + destruct (Hstep st) as [Hcc Htr].
      destruct (geocode_loop_frame l (geocode_country geocode st c) c Hx)
        as (Hcc' & post & Htr' & Hpost).
      split; [by rewrite Hcc'|]. exists post. by rewrite Htr', Htr.
    + apply elem_of_cons in Hin as [?|Hin]; [done|].
      destruct (geocode_country_frame st x c Hne) as (Hcc1 & new & Htr1 & Hnew).
      destruct (IH (geocode_country geocode st x) Hin Hstep) as (Hcc & new' & Htr & Hnew').
      split; [done|]. exists (new ++ new'). split.
      * by rewrite Htr, Htr1, app_assoc.
      * by rewrite lookups_of_app, Hnew, Hnew'.
Qed.

End geocoding.

Lemma lookups_of_call (c : string) (answer : geocode_result) (n : nat) :
  lookups_of c [EvGeocode c answer; EvSleep n] = [EvGeocode c answer].
Proof.
  unfold lookups_of. rewrite filter_cons. cbn [is_geocode_of].
  rewrite bool_decide_eq_true_2 by done. rewrite decide_True by done.
  rewrite filter_cons. cbn [is_geocode_of]. rewrite decide_False by done. done.
Qed.

(** C8: the loop of lines 51-64 runs once for each distinct country name
    of the aggregate.  For "Georgia" and for "Sudan" the fixed pair is
    stored and the geocoder is not called for the name.  For any other name
    the trace of the run holds exactly one geocoder call for it, followed
    at once by a sleep of one second, whatever the call answered; the
    cache holds the returned latitude and longitude when a location came
    back, and no entry for the name when the call returned nothing or
    raised. *)
Theorem geocoding_per_country
    (pycountry_lookup : string → lookup_result)
    (geocode : list event → string → geocode_result)
    (df : list sample) (c : string) :
  c ∈ unique ((λ r, ar_country (ir_agg r)) <$> counts_iso pycountry_lookup df) →
  let st := geocoded pycountry_lookup geocode df in
  if decide (c = "Georgia") then
    country_coords st !! c = Some (Coords 42.3154 43.3569) ∧
    lookups_of c (trace st) = []
  else if decide (c = "Sudan") then
    country_coords st !! c = Some (Coords 12.8628 30.2176) ∧
    lookups_of c (trace st) = []
  else
    ∃ before after : list event,
      let answer := geocode before c in
      trace st = before ++ [EvGeocode c answer; EvSleep 1] ++ after ∧
      lookups_of c before = [] ∧
      lookups_of c after = [] ∧
      lookups_of c (trace st) = [EvGeocode c answer] ∧
      country_coords st !! c =
        match answer with
        | GeocodeLocation la lo => Some (Coords la lo)
        | GeocodeNone | GeocodeRaises => None
        end.
Proof.
  intros Hin st. unfold st, geocoded, geocode_loop.
  set (countries := unique _) in *.
  assert (NoDup countries) as Hnd by apply NoDup_unique.
  destruct (decide (c = "Georgia")) as [->|HG];
    [|destruct (decide (c = "Sudan")) as [->|HS]].
  - destruct (geocode_loop_override geocode countries (GeoState ∅ []) "Georgia"
                (Coords 42.3154 43.3569) Hnd Hin) as (Hcc & new & Htr & Hnew).
    + intros st'. unfold geocode_country. rewrite decide_True by done.
      cbn [country_coords trace]. by rewrite lookup_insert_eq.
    + split; [done|]. by rewrite Htr.
  - destruct (geocode_loop_override geocode countries (GeoState ∅ []) "Sudan"
                (Coords 12.8628 30.2176) Hnd Hin) as (Hcc & new & Htr & Hnew).
    + intros st'. unfold geocode_country.
      rewrite decide_False, decide_True by done.
      cbn [country_coords trace]. by rewrite lookup_insert_eq.
    + split; [done|]. by rewrite Htr.
  - destruct (geocode_loop_lookup geocode countries (GeoState ∅ []) c Hnd Hin HG HS)
      as (pre & post & H); [done|].
    cbn zeta in H. cbn [trace] in H. rewrite !app_nil_l in H.
    destruct H as (Htr & Hpre & Hpost & Hcc).
    exists pre, post. cbn zeta. split; [done|]. split; [done|]. split; [done|].
    split; [|done].
    rewrite Htr, !lookups_of_app, Hpre, Hpost, lookups_of_call. done.
Qed.

Lemma geocoding_per_country_witness :
  let st := geocoded demo_lookup demo_geocode demo_rows in
  ∃ before after : list event,
    let answer := demo_geocode before "Uganda" in
    trace st = before ++ [EvGeocode "Uganda" answer; EvSleep 1] ++ after ∧
    lookups_of "Uganda" before = [] ∧
    lookups_of "Uganda" after = [] ∧
    lookups_of "Uganda" (trace st) = [EvGeocode "Uganda" answer] ∧
    country_coords st !! "Uganda" =
      match answer with
      | GeocodeLocation la lo => Some (Coords la lo)
      | GeocodeNone | GeocodeRaises => None
      end.
Proof.
  apply (geocoding_per_country demo_lookup demo_geocode demo_rows "Uganda").
  vm_compute. do 2 constructor 2. constructor.
Defined.

(** * Further properties of the pipeline *)

(** ** The order of the group keys *)

Lemma str_le_alt (a b : string) :
  str_le a b ↔ String_as_OT.lt a b ∨ a = b.
Proof.
  unfold str_le, String.leb. split.
  - destruct (String.compare a b) eqn:E; [|left|done].
    + right. by apply String_as_OT.cmp_eq.
    + by apply String_as_OT.cmp_lt.
  - intros [Hlt| ->].
    + apply String_as_OT.cmp_lt in Hlt. unfold String_as_OT.cmp in Hlt. by rewrite Hlt.
    + assert (String.compare b b = Eq) as -> by by apply String_as_OT.cmp_eq. done.
Qed.

Lemma str_lt_irrefl (a : string) : ¬ String_as_OT.lt a a.
Proof. intros H. by apply String_as_OT.lt_not_eq in H. Qed.

Global Instance str_le_total : Total str_le.
Proof. intros a b. apply String.leb_total. Qed.

Global Instance str_le_antisym : AntiSymm (=) str_le.
Proof. intros a b. apply String.leb_antisym. Qed.

Global Instance str_le_trans : Transitive str_le.
Proof.
  intros a b c. rewrite !str_le_alt. intros [H1| ->] [H2| ->]; auto.
  left. eapply String_as_OT.lt_trans; eauto.
Qed.

Lemma pair_le_alt (a b : string * string) :
  pair_le a b ↔ String_as_OT.lt a.1 b.1 ∨ (a.1 = b.1 ∧ str_le a.2 b.2).
Proof.
  unfold pair_le, pair_leb. split.
  - destruct (String.compare a.1 b.1) eqn:E; [|left|done].
    + right. split; [by apply String_as_OT.cmp_eq|done].
    + by apply String_as_OT.cmp_lt.
  - intros [Hlt|[Heq Hle]].
    + apply String_as_OT.cmp_lt in Hlt. unfold String_as_OT.cmp in Hlt. by rewrite Hlt.
    + assert (String.compare a.1 b.1 = Eq) as -> by by apply String_as_OT.cmp_eq. done.
Qed.

Global Instance pair_le_total : Total pair_le.
Proof.
  intros a b. rewrite !pair_le_alt.
  destruct (String.compare a.1 b.1) eqn:E.
  - apply String_as_OT.cmp_eq in E. destruct (str_le_total a.2 b.2); auto.
  - apply String_as_OT.cmp_lt in E. auto.
  - rewrite String.compare_antisym in E. apply CompOpp_iff in E.
    apply String_as_OT.cmp_lt in E. auto.
Qed.

Global Instance pair_le_antisym : AntiSymm (=) pair_le.
Proof.
  intros [a1 a2] [b1 b2]. rewrite !pair_le_alt. cbn.
  intros [H1|[-> H1]] [H2|[E H2]].
  - destruct (str_lt_irrefl a1). eapply String_as_OT.lt_trans; eauto.
  - subst. by destruct (str_lt_irrefl a1).
  - by destruct (str_lt_irrefl b1).
  - f_equal. by apply str_le_antisym.
Qed.

Global Instance pair_le_trans : Transitive pair_le.
Proof.
  intros a b c. rewrite !pair_le_alt. intros [H1|[E1 H1]] [H2|[E2 H2]].
  - left. eapply String_as_OT.lt_trans; eauto.
  - left. by rewrite <- E2.
  - left. by rewrite E1.
  - right. split; [congruence|]. by etrans.
Qed.

Section groupby_order.
Context {K : Type} `{EqDecision K}.
Variable le : relation K.
Context `{∀ a b, Decision (le a b)}.
Context `{!Total le, !Transitive le, !AntiSymm (=) le}.

Lemma group_size_perm (k : K) (keys1 keys2 : list K) :
  keys1 ≡ₚ keys2 → group_size k keys1 = group_size k keys2.
Proof. intros Hp. unfold group_size. by rewrite Hp. Qed.

(** The grouping does not depend on the order of the rows. *)
Lemma groupby_size_perm (keys1 keys2 : list K) :
  keys1 ≡ₚ keys2 → groupby_size le keys1 = groupby_size le keys2.
Proof.
  intros Hp. unfold groupby_size.
  assert (merge_sort le (remove_dups keys1) = merge_sort le (remove_dups keys2)) as ->.
  { apply (Sorted_unique le); [by apply Sorted_merge_sort..|].
    rewrite !merge_sort_Permutation.
    apply NoDup_Permutation; [apply NoDup_remove_dups..|].
    intros x. by rewrite !elem_of_remove_dups, Hp. }
  apply list_fmap_ext. intros _ k _. f_equal. by apply group_size_perm.
Qed.

End groupby_order.

Lemma aggregate_perm (df1 df2 : list clean_row) :
  df1 ≡ₚ df2 → aggregate df1 = aggregate df2.
Proof.
  intros Hp. unfold aggregate, counts_grouped, total_per_country.
  rewrite (groupby_size_perm pair_le df1 df2 Hp).
  rewrite (groupby_size_perm str_le df1.*1 df2.*1); [done|]. by rewrite Hp.
Qed.

(** X1: the whole run depends on the multiset of input rows only: two
    tables with the same rows in a different order give the same figure,
    the same coordinate cache and the same sequence of geocoder calls and
    sleeps. *)
Theorem input_order_irrelevant
    (pycountry_lookup : string → lookup_result)
    (geocode : list event → string → geocode_result)
    (df1 df2 : list sample) :
  df1 ≡ₚ df2 →
  aggregate (dropna df1) = aggregate (dropna df2) ∧
  geocoded pycountry_lookup geocode df1 = geocoded pycountry_lookup geocode df2 ∧
  figure pycountry_lookup geocode df1 = figure pycountry_lookup geocode df2.
Proof.
  intros Hp.
  assert (aggregate (dropna df1) = aggregate (dropna df2)) as Hagg.
  { apply aggregate_perm. unfold dropna. by rewrite Hp. }
  assert (counts_iso pycountry_lookup df1 = counts_iso pycountry_lookup df2) as Hiso.
  { unfold counts_iso. by rewrite Hagg. }
  assert (geocoded pycountry_lookup geocode df1 = geocoded pycountry_lookup geocode df2) as Hgeo.
  { unfold geocoded. by rewrite Hiso. }
  split; [done|]. split; [done|].
  unfold figure, displayed, plot_points. by rewrite Hiso, Hgeo.
Qed.

Lemma input_order_irrelevant_witness :
  aggregate (dropna (reverse demo_rows)) = aggregate (dropna demo_rows) ∧
  geocoded demo_lookup demo_geocode (reverse demo_rows) =
    geocoded demo_lookup demo_geocode demo_rows ∧
  figure demo_lookup demo_geocode (reverse demo_rows) =
    figure demo_lookup demo_geocode demo_rows.
Proof.
  apply (input_order_irrelevant demo_lookup demo_geocode (reverse demo_rows) demo_rows).
  apply reverse_Permutation.
Defined.

(** X2: the aggregate has exactly one row for each (country, label)
    pair that occurs in the cleaned table, and no row for any other pair;
    the per-country totals have exactly one row for each country that
    occurs in the cleaned table, and no other row. *)
Theorem aggregate_one_row_per_key (df : list clean_row) :
  NoDup ((λ r, (ar_country r, ar_dr_type r)) <$> aggregate df) ∧
  (∀ c t, (c, t) ∈ (λ r, (ar_country r, ar_dr_type r)) <$> aggregate df ↔
          (c, t) ∈ df) ∧
  NoDup (total_per_country df).*1 ∧
  (∀ c, c ∈ (total_per_country df).*1 ↔ c ∈ df.*1).
Proof.
  assert ((λ r, (ar_country r, ar_dr_type r)) <$> aggregate df =
          (groupby_size pair_le df).*1) as ->.
  { rewrite aggregate_rows. unfold counts_grouped.
    rewrite <- !list_fmap_compose. apply list_fmap_ext. by intros _ [[c t] n] _. }
  split; [apply group_keys_NoDup|]. split; [intros c t; apply elem_of_group_keys|].
  split; [apply group_keys_NoDup|]. intros c. apply elem_of_group_keys.
Qed.

(** ** Counts and percentages against the input table *)

(** X3: the join of line 24 neither drops, duplicates nor reorders a group
    row: stripped of the two added columns, the joined table is the table
    of line 23. *)
Theorem join_keeps_every_group (df : list clean_row) :
  (λ r, CountRow (ar_country r) (ar_dr_type r) (ar_count r)) <$> aggregate df =
    counts_grouped df ∧
  length (aggregate df) = length (counts_grouped df).
Proof.
  rewrite aggregate_rows. split; [|by rewrite length_fmap].
  rewrite <- list_fmap_compose. rewrite (list_fmap_ext _ id); [by rewrite list_fmap_id|].
  by intros _ [c t n] _.
Qed.

Lemma group_size_dropna (c t : string) (df : list sample) :
  group_size (c, t) (dropna df) =
  length (filter (λ s, Country_of_sample_collection s = Some c ∧
                       tbprofiler_dr_type s = Some t) df).
Proof.
  induction df as [|[oc ot] df IH]; [done|].
  rewrite filter_cons. unfold dropna in *. cbn [omap list_omap] in *.
  cbn [Country_of_sample_collection tbprofiler_dr_type].
  destruct oc as [c'|], ot as [t'|];
    try (rewrite decide_False by (intros [? ?]; congruence); exact IH).
  rewrite group_size_cons, IH.
  destruct (decide ((c', t') = (c, t))) as [E|E].
  - rewrite decide_True by (split; congruence). done.
  - rewrite decide_False by (intros [? ?]; congruence). done.
Qed.

Lemma group_size_dropna_country (c : string) (df : list sample) :
  group_size c (dropna df).*1 =
  length (filter (λ s, Country_of_sample_collection s = Some c ∧ complete s) df).
Proof.
  induction df as [|[oc ot] df IH]; [done|].
  rewrite filter_cons. unfold dropna, complete in *. cbn [omap list_omap] in *.
  cbn [Country_of_sample_collection tbprofiler_dr_type].
  destruct oc as [c'|], ot as [t'|];
    try (rewrite decide_False by (intros (? & [? ?] & [? ?]); congruence); exact IH).
  rewrite fmap_cons, group_size_cons, IH. cbn [fst].
  destruct (decide (c' = c)) as [E|E].
  - rewrite decide_True by (split; [congruence|split; eauto]). done.
  - rewrite decide_False by (intros [? ?]; congruence). done.
Qed.

Lemma group_size_pair_le_country (c t : string) (df : list clean_row) :
  group_size (c, t) df ≤ group_size c df.*1.
Proof.
  rewrite group_size_fst. unfold group_size.
  rewrite <- (list_filter_filter_l (λ x, x = (c, t)) (λ k, k.1 = c)).
  - apply length_filter.
  - by intros x ->.
Qed.

Lemma inject_nat_pos (T : nat) : 1 ≤ T → (0 < inject_Z (Z.of_nat T))%Q.
Proof. intros HT. rewrite <- (Zlt_Qlt 0). lia. Qed.

Lemma percent_of_pos (n T : nat) : 1 ≤ n → 1 ≤ T → (0 < percent_of n T)%Q.
Proof.
  intros Hn HT. unfold percent_of. apply Qmult_lt_0_compat; [|done].
  apply Qlt_shift_div_l; [by apply inject_nat_pos|].
  rewrite Qmult_0_l. by apply inject_nat_pos.
Qed.

Lemma percent_of_le_100 (n T : nat) : n ≤ T → 1 ≤ T → (percent_of n T <= 100)%Q.
Proof.
  intros Hn HT. unfold percent_of.
  apply (Qmult_le_compat_r _ 1 100); [|done].
  apply Qle_shift_div_r; [by apply inject_nat_pos|].
  rewrite Qmult_1_l, <- Zle_Qle. lia.
Qed.

(** X4: in every row of the aggregate the count does not exceed the
    total of the country, and the percentage is greater than 0 and at
    most 100. *)
Theorem percent_between_0_and_100 (df : list sample) :
  Forall (λ r, ar_count r ≤ ar_total_samples r ∧
               (0 < ar_percent r)%Q ∧ (ar_percent r <= 100)%Q)
    (aggregate (dropna df)).
Proof.
  apply Forall_forall. intros r Hr.
  apply elem_of_aggregate in Hr as (Hin & Hn & Htot & Hp).
  assert (1 ≤ ar_count r) as H1 by (rewrite Hn; by apply group_size_pos).
  assert (ar_count r ≤ ar_total_samples r) as H2.
  { rewrite Hn, Htot. apply group_size_pair_le_country. }
  split; [done|]. rewrite Hp. split.
  - apply percent_of_pos; lia.
  - apply percent_of_le_100; lia.
Qed.

Lemma aggregate_percent_bounds (r : agg_row) (df : list sample) :
  r ∈ aggregate (dropna df) →
  1 ≤ ar_count r ∧ ar_count r ≤ ar_total_samples r ∧
  (0 < ar_percent r)%Q ∧ (ar_percent r <= 100)%Q.
Proof.
  intros Hr. apply elem_of_aggregate in Hr as (Hin & Hn & Htot & Hp).
  assert (1 ≤ ar_count r) as H1 by (rewrite Hn; by apply group_size_pos).
  assert (ar_count r ≤ ar_total_samples r) as H2.
  { rewrite Hn, Htot. apply group_size_pair_le_country. }
  split; [done|]. split; [done|]. rewrite Hp. split.
  - apply percent_of_pos; lia.
  - apply percent_of_le_100; lia.
Qed.

(** X5: what a hover box shows is computed from the input table alone.
    For every datum (country, label, count, total, percent) of every trace:
    the label is that of the trace and the country has an ISO code; count
    is the number of input rows with that country and that label; total is
    the number of input rows of that country that have any label at all,
    displayed or not; and percent is 100 x count / total. *)
Theorem rendered_datum_counts_input
    (pycountry_lookup : string → lookup_result)
    (geocode : list event → string → geocode_result)
    (df : list sample) (tr : scattergeo)
    (c t : string) (n T : nat) (p : Q) :
  tr ∈ figure pycountry_lookup geocode df →
  (c, t, n, T, p) ∈ sg_customdata tr →
  t = sg_name tr ∧
  is_Some (get_iso3 pycountry_lookup c) ∧
  n = length (filter (λ s, Country_of_sample_collection s = Some c ∧
                           tbprofiler_dr_type s = Some t) df) ∧
  T = length (filter (λ s, Country_of_sample_collection s = Some c ∧ complete s) df) ∧
  1 ≤ n ∧ n ≤ T ∧
  (p == 100 * inject_Z (Z.of_nat n) / inject_Z (Z.of_nat T))%Q.
Proof.
  intros Htr Hd.
  destruct (elem_of_customdata _ tr _ Htr Hd) as (q & Hq & Hname & Heq).
  apply elem_of_displayed in Hq as [_ Hq].
  apply elem_of_plot_points in Hq as [Hq _].
  apply elem_of_assign_iso in Hq as [Hagg Hiso].
  unfold customdata_of in Heq. unfold pp_dr_type in Hname.
  set (r := ir_agg (pp_row q)) in *. injection Heq as -> -> -> -> ->.
  pose proof (aggregate_percent_bounds r df Hagg) as (H1 & H2 & _ & _).
  apply elem_of_aggregate in Hagg as (_ & Hn & HT & Hp).
  split; [done|]. split; [eauto|].
  split; [by rewrite Hn, group_size_dropna|].
  split; [by rewrite HT, group_size_dropna_country|].
  split; [done|]. split; [done|].
  rewrite Hp. unfold percent_of. field. apply inject_nat_nonzero. lia.
Qed.

Lemma rendered_datum_counts_input_witness :
  let c := "Uganda" in
  let t := "XDR-TB" in
  let tr := make_trace (displayed demo_lookup demo_geocode demo_rows) t in
  t = sg_name tr ∧
  is_Some (get_iso3 demo_lookup c) ∧
  2 = length (filter (λ s, Country_of_sample_collection s = Some c ∧
                           tbprofiler_dr_type s = Some t) demo_rows) ∧
  3 = length (filter (λ s, Country_of_sample_collection s = Some c ∧ complete s)
                demo_rows) ∧
  1 ≤ 2 ∧ 2 ≤ 3 ∧
  (percent_of 2 3 == 100 * inject_Z (Z.of_nat 2) / inject_Z (Z.of_nat 3))%Q.
Proof.
  intros c t tr.
  apply (rendered_datum_counts_input demo_lookup demo_geocode demo_rows tr c t 2 3
           (percent_of 2 3)).
  - vm_compute. do 6 constructor 2. constructor.
  - vm_compute. constructor.
Defined.

(** ** Rows that are not used *)

Lemma dropna_incomplete (rows : list sample) :
  Forall (λ r, ¬ complete r) rows → dropna rows = [].
Proof.
  induction 1 as [|[oc ot] rows Hr _ IH]; [done|].
  unfold dropna in *. cbn [omap list_omap]. cbn.
  destruct oc, ot; [|done..].
  destruct Hr. split; cbn; eauto.
Qed.

(** X6: rows that lack the country or the label leave no mark on the run:
    with or without them, wherever they stand in the table, the aggregate,
    the figure and the geocoder traffic are the same. *)
Theorem incomplete_rows_ignored
    (pycountry_lookup : string → lookup_result)
    (geocode : list event → string → geocode_result)
    (df1 rows df2 : list sample) :
  Forall (λ r, ¬ complete r) rows →
  aggregate (dropna (df1 ++ rows ++ df2)) = aggregate (dropna (df1 ++ df2)) ∧
  geocoded pycountry_lookup geocode (df1 ++ rows ++ df2) =
    geocoded pycountry_lookup geocode (df1 ++ df2) ∧
  figure pycountry_lookup geocode (df1 ++ rows ++ df2) =
    figure pycountry_lookup geocode (df1 ++ df2).
Proof.
  intros Hrows.
  assert (dropna (df1 ++ rows ++ df2) = dropna (df1 ++ df2)) as Hd.
  { unfold dropna. rewrite !omap_app.
    fold (dropna rows). by rewrite (dropna_incomplete rows Hrows). }
  unfold figure, displayed, plot_points, geocoded, counts_iso. by rewrite Hd.
Qed.

Lemma incomplete_rows_ignored_witness :
  let rows := [Sample None (Some "RR-TB"); Sample (Some "Georgia") None; Sample None None] in
  aggregate (dropna (kenya_rows ++ rows ++ demo_rows)) =
    aggregate (dropna (kenya_rows ++ demo_rows)) ∧
  geocoded demo_lookup demo_geocode (kenya_rows ++ rows ++ demo_rows) =
    geocoded demo_lookup demo_geocode (kenya_rows ++ demo_rows) ∧
  figure demo_lookup demo_geocode (kenya_rows ++ rows ++ demo_rows) =
    figure demo_lookup demo_geocode (kenya_rows ++ demo_rows).
Proof.
  intros rows.
  apply (incomplete_rows_ignored demo_lookup demo_geocode kenya_rows rows demo_rows).
  repeat constructor; intros [[? ?] [? ?]]; discriminate.
Defined.

(** X7: a country whose ISO lookup succeeds keeps every one of its
    aggregate rows through the ISO filter, in order, each tagged with the
    code that the lookup returned. *)
Theorem recognized_country_keeps_rows
    (pycountry_lookup : string → lookup_result)
    (df : list sample) (C alpha_3 : string) :
  get_iso3 pycountry_lookup C = Some alpha_3 →
  filter (λ r, ar_country (ir_agg r) = C) (counts_iso pycountry_lookup df) =
    (λ r, IsoRow r alpha_3) <$> rows_of_country C (aggregate (dropna df)).
Proof.
  intros Hiso. unfold counts_iso, assign_iso, rows_of_country.
  induction (aggregate (dropna df)) as [|r l IH]; [done|].
  cbn [omap list_omap]. rewrite (filter_cons _ r).
  destruct (decide (ar_country r = C)) as [E|E].
  - rewrite E, Hiso. cbn. rewrite decide_True by done. f_equal. exact IH.
  - destruct (get_iso3 pycountry_lookup (ar_country r)); cbn; [|exact IH].
    rewrite decide_False by done. exact IH.
Qed.

Lemma recognized_country_keeps_rows_witness :
  filter (λ r, ar_country (ir_agg r) = "Uganda") (counts_iso demo_lookup demo_rows) =
    (λ r, IsoRow r "UGA") <$> rows_of_country "Uganda" (aggregate (dropna demo_rows)).
Proof.
  apply (recognized_country_keeps_rows demo_lookup demo_rows "Uganda" "UGA").
  reflexivity.
Defined.

(** ** Geocoder traffic *)

Lemma queries_app (l k : list event) : queries (l ++ k) = queries l ++ queries k.
Proof. apply omap_app. Qed.

Lemma total_sleep_app (l k : list event) :
  total_sleep (l ++ k) = total_sleep l + total_sleep k.
Proof. apply sum_list_with_app. Qed.

Section geocoding_traffic.
Variable geocode : list event → string → geocode_result.

(** What one iteration adds to the trace. *)
Lemma geocode_country_trace (st : geo_state) (x : string) :
  ∃ new, trace (geocode_country geocode st x) = trace st ++ new ∧
    queries new = filter (λ c, c ≠ "Georgia" ∧ c ≠ "Sudan") [x] ∧
    total_sleep new = length (queries new) ∧
    length new = 2 * length (queries new).
Proof.
  unfold geocode_country.
  destruct (decide (x = "Georgia")) as [HG|HG];
    [|destruct (decide (x = "Sudan")) as [HS|HS]]; cbn [trace].
  - exists []. rewrite app_nil_r, filter_cons, decide_False by tauto. done.
  - exists []. rewrite app_nil_r, filter_cons, decide_False by tauto. done.
  - eexists. split; [reflexivity|].
    rewrite filter_cons, decide_True by tauto. done.
Qed.

Lemma geocode_loop_trace (l : list string) (st : geo_state) :
  ∃ new, trace (foldl (geocode_country geocode) st l) = trace st ++ new ∧
    queries new = filter (λ c, c ≠ "Georgia" ∧ c ≠ "Sudan") l ∧
    total_sleep new = length (queries new) ∧
    length new = 2 * length (queries new).
Proof.
  revert st. induction l as [|x l IH]; intros st; cbn [foldl].
  - exists []. by rewrite app_nil_r.
  - destruct (geocode_country_trace st x) as (n1 & Ht1 & Hq1 & Hs1 & Hl1).
    destruct (IH (geocode_country geocode st x)) as (n2 & Ht2 & Hq2 & Hs2 & Hl2).
    exists (n1 ++ n2). rewrite Ht2, Ht1, <- app_assoc. split; [done|].
    change (x :: l) with ([x] ++ l). rewrite filter_app.
    rewrite queries_app, total_sleep_app, !length_app.
    split; [by rewrite Hq1, Hq2|]. lia.
Qed.

Lemma geocode_country_georgia (st : geo_state) :
  country_coords (geocode_country geocode st "Georgia") !! "Georgia" =
    Some (Coords 42.3154 43.3569) ∧
  trace (geocode_country geocode st "Georgia") = trace st.
Proof.
  unfold geocode_country. rewrite decide_True by done.
  cbn [country_coords trace]. by rewrite lookup_insert_eq.
Qed.

Lemma geocode_country_sudan (st : geo_state) :
  country_coords (geocode_country geocode st "Sudan") !! "Sudan" =
    Some (Coords 12.8628 30.2176) ∧
  trace (geocode_country geocode st "Sudan") = trace st.
Proof.
  unfold geocode_country. rewrite decide_False, decide_True by done.
  cbn [country_coords trace]. by rewrite lookup_insert_eq.
Qed.

End geocoding_traffic.

Lemma elem_of_aggregate_key (c t : string) (df : list clean_row) :
  (c, t) ∈ df → ∃ r, r ∈ aggregate df ∧ ar_country r = c ∧ ar_dr_type r = t.
Proof.
  intros Hin. exists (agg_of df (CountRow c t (group_size (c, t) df))).
  split; [|done]. rewrite aggregate_rows. apply list_elem_of_fmap.
  eexists. split; [reflexivity|]. by apply elem_of_counts_grouped.
Qed.

(** The countries the loop of line 51 runs over, in terms of the input. *)
Lemma elem_of_loop_countries (pycountry_lookup : string → lookup_result)
    (df : list sample) (c : string) :
  c ∈ unique ((λ r, ar_country (ir_agg r)) <$> counts_iso pycountry_lookup df) ↔
  (∃ t, Sample (Some c) (Some t) ∈ df) ∧ is_Some (get_iso3 pycountry_lookup c).
Proof.
  rewrite elem_of_unique, list_elem_of_fmap. split.
  - intros (r & -> & [Hagg Hiso]%elem_of_assign_iso). split; [|eauto].
    apply elem_of_aggregate in Hagg as (Hin & _). apply elem_of_dropna in Hin. eauto.
  - intros [[t Hin] [a Hiso]]. apply elem_of_dropna in Hin.
    destruct (elem_of_aggregate_key c t _ Hin) as (r & Hr & Hc & Ht).
    exists (IsoRow r a). split; [done|]. apply elem_of_assign_iso. cbn. by rewrite Hc.
Qed.

(** X8: the names sent to the geocoder are exactly the countries that have
    at least one complete input row, pass the ISO lookup and are neither
    "Georgia" nor "Sudan".  In particular nothing is asked about a country
    that the ISO filter drops, and a country is asked about even when none
    of its labels is among the seven displayed ones. *)
Theorem geocoder_queries_characterised
    (pycountry_lookup : string → lookup_result)
    (geocode : list event → string → geocode_result)
    (df : list sample) (c : string) :
  c ∈ queries (trace (geocoded pycountry_lookup geocode df)) ↔
  (∃ t, Sample (Some c) (Some t) ∈ df) ∧
  is_Some (get_iso3 pycountry_lookup c) ∧
  c ≠ "Georgia" ∧ c ≠ "Sudan".
Proof.
  unfold geocoded, geocode_loop.
  destruct (geocode_loop_trace geocode
              (unique ((λ r, ar_country (ir_agg r)) <$> counts_iso pycountry_lookup df))
              (GeoState ∅ [])) as (new & Htr & Hq & _).
  rewrite Htr. cbn [trace]. rewrite app_nil_l, Hq.
  rewrite list_elem_of_filter, elem_of_loop_countries. tauto.
Qed.

(** X9: the trace of the run consists of one geocoder call and one second
    of sleep for each distinct country of the ISO-filtered aggregate other
    than "Georgia" and "Sudan", in order of first appearance: no name is
    asked about twice, and the run sleeps as many seconds as it makes
    calls. *)
Theorem geocoder_traffic
    (pycountry_lookup : string → lookup_result)
    (geocode : list event → string → geocode_result)
    (df : list sample) :
  let tr := trace (geocoded pycountry_lookup geocode df) in
  queries tr =
    filter (λ c, c ≠ "Georgia" ∧ c ≠ "Sudan")
      (unique ((λ r, ar_country (ir_agg r)) <$> counts_iso pycountry_lookup df)) ∧
  NoDup (queries tr) ∧
  total_sleep tr = length (queries tr) ∧
  length tr = 2 * length (queries tr).
Proof.
  intros tr. unfold tr, geocoded, geocode_loop.
  destruct (geocode_loop_trace geocode
              (unique ((λ r, ar_country (ir_agg r)) <$> counts_iso pycountry_lookup df))
              (GeoState ∅ [])) as (new & Htr & Hq & Hs & Hl).
  rewrite Htr. cbn [trace]. rewrite app_nil_l.
  split; [done|]. split; [|done].
  rewrite Hq. apply NoDup_filter, NoDup_unique.
Qed.

(** ** Where the points are placed *)

Section placement.
Variable pycountry_lookup : string → lookup_result.
Variable geocode : list event → string → geocode_result.

Lemma plot_point_in_loop (p : plot_point) (df : list sample) :
  p ∈ plot_points pycountry_lookup geocode df →
  pp_country p ∈
    unique ((λ r, ar_country (ir_agg r)) <$> counts_iso pycountry_lookup df).
Proof.
  intros [Hr _]%elem_of_plot_points. apply elem_of_unique, list_elem_of_fmap.
  by exists (pp_row p).
Qed.

Lemma plot_point_coords (p : plot_point) (df : list sample) (base : coords) :
  p ∈ plot_points pycountry_lookup geocode df →
  country_coords (geocoded pycountry_lookup geocode df) !! pp_country p = Some base →
  pp_lat p = lat base ∧ pp_lon p = (lon base + jitter (pp_dr_type p))%Q.
Proof.
  intros [_ Hp]%elem_of_plot_points Hcc. rewrite Hp. unfold apply_coords.
  unfold pp_country in Hcc. cbn. by rewrite Hcc.
Qed.

End placement.

(** X10: every row of "Georgia" is plotted at latitude 42.3154 and
    longitude 43.3569 plus its jitter, and every row of "Sudan" at latitude
    12.8628 and longitude 30.2176 plus its jitter, whatever the geocoder
    would have answered. *)
Theorem override_countries_fixed_location
    (pycountry_lookup : string → lookup_result)
    (geocode : list event → string → geocode_result)
    (df : list sample) :
  Forall (λ p, pp_lat p = 42.3154%Q ∧
               pp_lon p = (43.3569 + jitter (pp_dr_type p))%Q)
    (filter (λ p, pp_country p = "Georgia") (plot_points pycountry_lookup geocode df)) ∧
  Forall (λ p, pp_lat p = 12.8628%Q ∧
               pp_lon p = (30.2176 + jitter (pp_dr_type p))%Q)
    (filter (λ p, pp_country p = "Sudan") (plot_points pycountry_lookup geocode df)).
Proof.
  split; apply Forall_forall; intros p [Hc Hp]%list_elem_of_filter;
    pose proof (plot_point_in_loop _ geocode p df Hp) as Hin; rewrite Hc in Hin.
  - destruct (geocode_loop_override geocode _ (GeoState ∅ []) "Georgia"
                (Coords 42.3154 43.3569) (NoDup_unique _) Hin) as [Hcc _].
    { intros st'. apply geocode_country_georgia. }
    apply (plot_point_coords _ geocode p df (Coords 42.3154 43.3569) Hp).
    by rewrite Hc.
  - destruct (geocode_loop_override geocode _ (GeoState ∅ []) "Sudan"
                (Coords 12.8628 30.2176) (NoDup_unique _) Hin) as [Hcc _].
    { intros st'. apply geocode_country_sudan. }
    apply (plot_point_coords _ geocode p df (Coords 12.8628 30.2176) Hp).
    by rewrite Hc.
Qed.

(** X11: a row of any other country is plotted where the one geocoder
    call for its country says: at the returned latitude and the returned
    longitude plus jitter when the call returned a location, and at
    latitude 0.0 and longitude 30.0 plus jitter when it returned nothing or
    raised. *)
Theorem point_placed_by_geocoder_answer
    (pycountry_lookup : string → lookup_result)
    (geocode : list event → string → geocode_result)
    (df : list sample) (p : plot_point) :
  p ∈ plot_points pycountry_lookup geocode df →
  pp_country p ≠ "Georgia" → pp_country p ≠ "Sudan" →
  ∃ before after : list event,
    let answer := geocode before (pp_country p) in
    trace (geocoded pycountry_lookup geocode df) =
      before ++ [EvGeocode (pp_country p) answer; EvSleep 1] ++ after ∧
    pp_lat p = match answer with
               | GeocodeLocation la _ => la
               | GeocodeNone | GeocodeRaises => 0.0%Q
               end ∧
    pp_lon p = (match answer with
                | GeocodeLocation _ lo => lo
                | GeocodeNone | GeocodeRaises => 30.0%Q
                end + jitter (pp_dr_type p))%Q.
Proof.
  intros Hp HG HS.
  pose proof (plot_point_in_loop _ geocode p df Hp) as Hin.
  destruct (geocode_loop_lookup geocode _ (GeoState ∅ []) (pp_country p)
              (NoDup_unique _) Hin HG HS) as (pre & post & H); [done|].
  cbn zeta in H. cbn [trace] in H. rewrite !app_nil_l in H.
  destruct H as (Htr & _ & _ & Hcc).
  exists pre, post. cbn zeta. split; [exact Htr|].
  fold (geocode_loop geocode
          (unique ((λ r, ar_country (ir_agg r)) <$> counts_iso pycountry_lookup df))) in Hcc.
  fold (geocoded pycountry_lookup geocode df) in Hcc.
  destruct (geocode pre (pp_country p)) as [| |la lo].
  - apply elem_of_plot_points in Hp as [_ Hp]. rewrite Hp. unfold apply_coords.
    unfold pp_country in Hcc. cbn. by rewrite Hcc.
  - apply elem_of_plot_points in Hp as [_ Hp]. rewrite Hp. unfold apply_coords.
    unfold pp_country in Hcc. cbn. by rewrite Hcc.
  - by apply (plot_point_coords _ geocode p df (Coords la lo) Hp).
Qed.

Lemma point_placed_by_geocoder_answer_witness :
  let p := PlotPoint (IsoRow (AggRow "Kenya" "MDR-TB" 2 10 (percent_of 2 10)) "KEN")
             1.4419683%Q (38.4313975 + 0.4)%Q in
  ∃ before after : list event,
    let answer := demo_geocode before (pp_country p) in
    trace (geocoded demo_lookup demo_geocode demo_rows) =
      before ++ [EvGeocode (pp_country p) answer; EvSleep 1] ++ after ∧
    pp_lat p = match answer with
               | GeocodeLocation la _ => la
               | GeocodeNone | GeocodeRaises => 0.0%Q
               end ∧
    pp_lon p = (match answer with
                | GeocodeLocation _ lo => lo
                | GeocodeNone | GeocodeRaises => 30.0%Q
                end + jitter (pp_dr_type p))%Q.
Proof.
  intros p.
  apply (point_placed_by_geocoder_answer demo_lookup demo_geocode demo_rows p).
  - vm_compute. do 1 constructor 2. constructor.
  - discriminate.
  - discriminate.
Defined.

(** ** What the figure shows *)

Lemma filter_all {A} (P : A → Prop) `{∀ a, Decision (P a)} (l : list A) :
  (∀ a, a ∈ l → P a) → filter P l = l.
Proof.
  induction l as [|a l IH]; intros Hall; [done|].
  rewrite filter_cons, decide_True by (apply Hall; constructor).
  f_equal. apply IH. intros b Hb. apply Hall. by constructor.
Qed.

Lemma NoDup_selected_types : NoDup selected_types.
Proof. apply (bool_decide_unpack _). vm_compute. exact I. Qed.

(** X12: the seven traces split the displayed rows among them: every
    displayed row is drawn, and the traces together hold as many points as
    there are displayed rows, so no row is drawn twice. *)
Theorem traces_partition_displayed
    (pycountry_lookup : string → lookup_result)
    (geocode : list event → string → geocode_result)
    (df : list sample) :
  sum_list_with (λ tr, length (sg_customdata tr))
    (figure pycountry_lookup geocode df) =
    length (displayed pycountry_lookup geocode df) ∧
  Forall (λ p, ∃ tr, tr ∈ figure pycountry_lookup geocode df ∧
                     sg_name tr = pp_dr_type p ∧
                     customdata_of p ∈ sg_customdata tr)
    (displayed pycountry_lookup geocode df).
Proof.
  split.
  - unfold figure, render. set (counts := displayed pycountry_lookup geocode df).
    rewrite sum_list_with_fmap.
    rewrite (sum_list_with_ext _ (λ d, group_size d (pp_dr_type <$> counts))).
    2: { intros d. cbn. unfold group_size. by rewrite filter_fmap, !length_fmap. }
    assert (∀ t, t ∈ pp_dr_type <$> counts → t ∈ selected_types) as Hsub.
    { intros t (p & -> & Hp)%list_elem_of_fmap. by apply elem_of_displayed in Hp as [? _]. }
    rewrite <- (filter_all (λ d, d ∈ selected_types) selected_types) at 1 by done.
    rewrite (sum_group_sizes (λ d, d ∈ selected_types)).
    + by rewrite filter_all, length_fmap.
    + apply NoDup_selected_types.
    + exact Hsub.
  - apply Forall_forall. intros p Hp.
    destruct (displayed_point_in_trace p (displayed pycountry_lookup geocode df) Hp)
      as (tr & i & Htr & Hname & Hcd & _).
    { by apply elem_of_displayed in Hp as [? _]. }
    exists tr. split; [done|]. split; [done|].
    by apply list_elem_of_lookup_2 in Hcd.
Qed.

Lemma jitter_selected_inj (t1 t2 : string) :
  t1 ∈ selected_types → t2 ∈ selected_types →
  (jitter t1 == jitter t2)%Q → t1 = t2.
Proof.
  unfold selected_types. rewrite !elem_of_cons, !elem_of_nil.
  intros H1 H2 Hj.
  repeat (destruct H1 as [->|H1]); [..|done];
    repeat (destruct H2 as [->|H2]); try done; try reflexivity;
    vm_compute in Hj; discriminate.
Qed.

Lemma plot_point_base
    (pycountry_lookup : string → lookup_result)
    (geocode : list event → string → geocode_result)
    (df : list sample) (p : plot_point) :
  p ∈ plot_points pycountry_lookup geocode df →
  let base := default default_coords
    (country_coords (geocoded pycountry_lookup geocode df) !! pp_country p) in
  pp_lat p = lat base ∧ pp_lon p = (lon base + jitter (pp_dr_type p))%Q.
Proof.
  intros [_ Hp]%elem_of_plot_points. cbn zeta. rewrite Hp at 1 3. done.
Qed.

(** X13: two displayed points of one country with different labels have
    the same latitude but different longitudes, so that their bubbles never
    sit exactly on top of each other. *)
Theorem different_labels_different_longitudes
    (pycountry_lookup : string → lookup_result)
    (geocode : list event → string → geocode_result)
    (df : list sample) (p1 p2 : plot_point) :
  p1 ∈ displayed pycountry_lookup geocode df →
  p2 ∈ displayed pycountry_lookup geocode df →
  pp_country p1 = pp_country p2 →
  pp_dr_type p1 ≠ pp_dr_type p2 →
  pp_lat p1 = pp_lat p2 ∧ ¬ (pp_lon p1 == pp_lon p2)%Q.
Proof.
  intros [Ht1 H1]%elem_of_displayed [Ht2 H2]%elem_of_displayed Hc Hne.
  apply plot_point_base in H1 as [Hlat1 Hlon1].
  apply plot_point_base in H2 as [Hlat2 Hlon2].
  rewrite <- Hc in Hlat2, Hlon2.
  split; [congruence|]. rewrite Hlon1, Hlon2. intros Heq.
  apply Qplus_inj_l in Heq. by apply Hne, jitter_selected_inj.
Qed.

Lemma different_labels_different_longitudes_witness :
  let k t n p la lo := PlotPoint (IsoRow (AggRow "Kenya" t n 10 p) "KEN") la lo in
  let p1 := k "MDR-TB" 2 (percent_of 2 10) 1.4419683%Q (38.4313975 + 0.4)%Q in
  let p2 := k "Sensitive" 8 (percent_of 8 10) 1.4419683%Q (38.4313975 + 0.0)%Q in
  pp_lat p1 = pp_lat p2 ∧ ¬ (pp_lon p1 == pp_lon p2)%Q.
Proof.
  intros k p1 p2.
  apply (different_labels_different_longitudes demo_lookup demo_geocode demo_rows p1 p2).
  - vm_compute. do 1 constructor 2. constructor.
  - vm_compute. do 2 constructor 2. constructor.
  - reflexivity.
  - discriminate.
Defined.

(** The counts of one country in the whole aggregate. *)
Lemma country_count_total (C : string) (df : list clean_row) :
  sum_list_with ar_count (rows_of_country C (aggregate df)) = group_size C df.*1.
Proof.
  rewrite rows_of_country_aggregate, sum_list_with_fmap. cbn.
  apply counts_grouped_sum.
Qed.

(** Dropping rows, adding coordinates and selecting labels can only remove
    counts of a country, never add any. *)
Lemma displayed_count_le (pycountry_lookup : string → lookup_result)
    (cc : gmap string coords) (C : string) (A : list agg_row) :
  sum_list_with (λ p, ar_count (ir_agg (pp_row p)))
    (filter (λ p, pp_country p = C)
       (select_types (apply_coords cc <$> assign_iso pycountry_lookup A))) ≤
  sum_list_with ar_count (rows_of_country C A).
Proof.
  unfold rows_of_country, select_types, assign_iso.
  induction A as [|r A IH]; [done|].
  cbn [omap list_omap]. rewrite (filter_cons _ r).
  destruct (get_iso3 pycountry_lookup (ar_country r)) as [a|]; cbn [fmap option_fmap option_map].
  - rewrite fmap_cons. set (p := apply_coords cc (IsoRow r a)).
    assert (pp_country p = ar_country r) as Hc by done.
    assert (ar_count (ir_agg (pp_row p)) = ar_count r) as Hn by done.
    rewrite (filter_cons _ p).
    destruct (decide (pp_dr_type p ∈ selected_types)).
    + rewrite (filter_cons _ p).
      destruct (decide (ar_country r = C)) as [E|E].
      * rewrite decide_True by congruence. cbn [sum_list_with]. rewrite Hn. lia.
      * rewrite decide_False by congruence. exact IH.
    + destruct (decide (ar_country r = C)); [|exact IH].
      cbn [sum_list_with]. lia.
  - destruct (decide (ar_country r = C)); [|exact IH].
    cbn [sum_list_with]. lia.
Qed.

(** X14: for every country, the counts of its displayed rows add up to at
    most the number of complete input rows of the country, and that number
    is the total-samples value which each of those rows displays.  (The sum
    falls short of it when a label of the country is not displayed.) *)
Theorem displayed_counts_at_most_total
    (pycountry_lookup : string → lookup_result)
    (geocode : list event → string → geocode_result)
    (df : list sample) (C : string) :
  let shown := filter (λ p, pp_country p = C) (displayed pycountry_lookup geocode df) in
  let total :=
    length (filter (λ s, Country_of_sample_collection s = Some C ∧ complete s) df) in
  sum_list_with (λ p, ar_count (ir_agg (pp_row p))) shown ≤ total ∧
  Forall (λ p, ar_total_samples (ir_agg (pp_row p)) = total) shown.
Proof.
  intros shown total. unfold shown, total.
  rewrite <- group_size_dropna_country. split.
  - rewrite <- country_count_total. apply displayed_count_le.
  - apply Forall_forall. intros p [Hc Hp]%list_elem_of_filter.
    apply elem_of_displayed in Hp as [_ Hp]. apply elem_of_plot_points in Hp as [Hp _].
    apply elem_of_assign_iso in Hp as [Hp _].
    apply elem_of_aggregate in Hp as (_ & _ & -> & _). by rewrite <- Hc.
Qed.

(** X15: as soon as one row is displayed, the maximum percentage M is
    greater than 0 and at most 100, so the sizing reference 2 x M / 40^2
    that every trace carries is a positive number, at most 1/8: the marker
    areas are never scaled by zero or by a missing value. *)
Theorem sizeref_positive
    (pycountry_lookup : string → lookup_result)
    (geocode : list event → string → geocode_result)
    (df : list sample) :
  displayed pycountry_lookup geocode df ≠ [] →
  ∃ M : Q,
    max_percent (displayed pycountry_lookup geocode df) = Some M ∧
    (0 < M)%Q ∧ (M <= 100)%Q ∧
    Forall (λ tr, ∃ s : Q, sizeref (sg_marker tr) = Some s ∧
                           (0 < s)%Q ∧ (s <= 1 # 8)%Q)
      (figure pycountry_lookup geocode df).
Proof.
  intros Hne. unfold max_percent.
  pose proof (series_max_spec (pp_percent <$> displayed pycountry_lookup geocode df)) as Hmax.
  destruct (series_max _) as [M|] eqn:EM; [|by apply fmap_nil_inv in Hmax].
  destruct Hmax as [(p & -> & Hp)%list_elem_of_fmap _].
  apply elem_of_displayed in Hp as [_ Hp]. apply elem_of_plot_points in Hp as [Hp _].
  apply elem_of_assign_iso in Hp as [Hp _].
  apply aggregate_percent_bounds in Hp as (_ & _ & Hpos & Hle).
  fold (pp_percent p) in Hpos, Hle.
  exists (pp_percent p). split; [done|]. split; [done|]. split; [done|].
  apply Forall_forall. intros tr [_ ->]%elem_of_render.
  cbn [make_trace sg_marker sizeref]. unfold max_percent, sizeref_of. rewrite EM.
  eexists. split; [reflexivity|].
  assert (0 < 40 ^ 2)%Q as H40 by reflexivity.
  assert ((1 # 8) * 40 ^ 2 == 200)%Q as H200 by reflexivity.
  split.
  - apply Qlt_shift_div_l; [done|]. lra.
  - apply Qle_shift_div_r; [done|]. rewrite H200. lra.
Qed.

Lemma sizeref_positive_witness :
  ∃ M : Q,
    max_percent (displayed demo_lookup demo_geocode demo_rows) = Some M ∧
    (0 < M)%Q ∧ (M <= 100)%Q ∧
    Forall (λ tr, ∃ s : Q, sizeref (sg_marker tr) = Some s ∧
                           (0 < s)%Q ∧ (s <= 1 # 8)%Q)
      (figure demo_lookup demo_geocode demo_rows).
Proof.
  apply (sizeref_positive demo_lookup demo_geocode demo_rows).
  vm_compute. discriminate.
Defined.

(** X16: the coordinate cache has entries only for countries the loop ran
    over: a name with no complete input row, or one that fails the ISO
    lookup, has no entry and causes no geocoder call. *)
Theorem cache_only_for_loop_countries
    (pycountry_lookup : string → lookup_result)
    (geocode : list event → string → geocode_result)
    (df : list sample) (c : string) :
  ¬ ((∃ t, Sample (Some c) (Some t) ∈ df) ∧ is_Some (get_iso3 pycountry_lookup c)) →
  country_coords (geocoded pycountry_lookup geocode df) !! c = None ∧
  lookups_of c (trace (geocoded pycountry_lookup geocode df)) = [].
Proof.
  intros Hn. rewrite <- elem_of_loop_countries in Hn.
  destruct (geocode_loop_frame geocode _ (GeoState ∅ []) c Hn) as (Hcc & new & Htr & Hnew).
  unfold geocoded, geocode_loop. rewrite Hcc, Htr. cbn [country_coords trace].
  by rewrite lookup_empty, app_nil_l.
Qed.

Lemma cache_only_for_loop_countries_witness :
  country_coords (geocoded demo_lookup demo_geocode demo_rows) !! "Atlantis" = None ∧
  lookups_of "Atlantis" (trace (geocoded demo_lookup demo_geocode demo_rows)) = [].
Proof.
  apply (cache_only_for_loop_countries demo_lookup demo_geocode demo_rows "Atlantis").
  intros [_ [a Ha]]. discriminate.
Defined.

(** ** The run that raises *)

(** X17: the run ends with the ValueError of line 71, before any figure
    is shown, exactly when no complete input row belongs to a country that
    passes the ISO lookup; no geocoder call and no sleep precede that
    failure, and the coordinate cache is empty. *)
Theorem run_raises_without_recognised_row
    (pycountry_lookup : string → lookup_result)
    (geocode : list event → string → geocode_result)
    (df : list sample) :
  (run_figure pycountry_lookup geocode df = None ↔
   ∀ c t, Sample (Some c) (Some t) ∈ df → get_iso3 pycountry_lookup c = None) ∧
  match run_figure pycountry_lookup geocode df with
  | None => geocoded pycountry_lookup geocode df = GeoState ∅ []
  | Some fig => fig = figure pycountry_lookup geocode df
  end.
Proof.
  assert (counts_iso pycountry_lookup df = [] ↔
          ∀ c t, Sample (Some c) (Some t) ∈ df → get_iso3 pycountry_lookup c = None)
    as Hempty.
  { split.
    - intros Hnil c t Hin. destruct (get_iso3 pycountry_lookup c) as [a|] eqn:E; [|done].
      assert (c ∈ unique ((λ r, ar_country (ir_agg r)) <$> counts_iso pycountry_lookup df)) as Hc.
      { apply elem_of_loop_countries. split; [eauto|]. rewrite E. eauto. }
      rewrite Hnil in Hc. by apply elem_of_nil in Hc.
    - intros Hall. destruct (counts_iso pycountry_lookup df) as [|r l] eqn:E; [done|].
      assert (ar_country (ir_agg r) ∈
              unique ((λ r, ar_country (ir_agg r)) <$> counts_iso pycountry_lookup df)) as Hc.
      { rewrite E. cbn. constructor. }
      apply elem_of_loop_countries in Hc as [[t Hin] [a Ha]].
      rewrite (Hall _ _ Hin) in Ha. discriminate. }
  unfold run_figure, run_plot_points, geocoded. rewrite <- Hempty.
  destruct (counts_iso pycountry_lookup df) as [|r l] eqn:E; cbn.
  - done.
  - split; [done|]. unfold figure, displayed, plot_points, geocoded. by rewrite E.
Qed.
